(** * Schedule executor of mdm_dash: /api/schedules/execute.js

    A shallow embedding of the request handler that finds the schedules due
    for execution, pushes their profile to the target devices and updates
    the [schedules] table, with its helpers [calculateNextExecutionTime],
    [fetchAllDevices], [fetchFilteredDevices] and [pushProfileToDevice].

    Conventions of the embedding.
    - A JavaScript [Date] is its time value: milliseconds since the epoch,
      an integer of [Z].  The timestamps of the table are wall clock times,
      far inside the range of [Date]; the range limit is not modelled.
    - Local time is UTC shifted by a constant [tza] (milliseconds), a
      parameter of every function that reads or writes local date fields;
      a zone that changes its offset (daylight saving) is not modelled.
    - The external services (the table, the device directory, the profile
      API) answer through the oracles of a record [World]; the table itself
      is a list of rows that the handler reads and returns updated.
    - [createClient] is taken to return a client: the outer [catch] of the
      handler, which answers 500 "Schedule execution failed" to an error
      thrown outside the pipelines, has no case here.
    - A directory answer that is read is a list of device objects; a body
      whose [data] is neither a list nor missing is not represented.
    - The schedules of a run, which the code starts together, are taken one
      after the other in the order of the query; across schedules the order
      of the log of pushes is this convention, its content is the code's.
    - Strings are sequences of one-byte characters and [toLowerCase] lowers
      the letters A to Z, as the code does on ASCII text. *)

From Stdlib Require Import ZArith List Bool Lia String Ascii.
From Stdlib Require Import Sorting.Permutation Sorting.Sorted.
From Stdlib Require Import QArith.QArith_base.
From Stdlib Require DecimalString.
Import ListNotations.
Open Scope Z_scope.

(** ** Time values and the local date fields of [Date] *)

Module JSDate.

Definition msPerDay : Z := 86400000.

Definition Day (t : Z) : Z := t / msPerDay.
Definition TimeWithinDay (t : Z) : Z := t mod msPerDay.

Definition DaysInYear (y : Z) : Z :=
  if negb (y mod 4 =? 0) then 365
  else if negb (y mod 100 =? 0) then 366
  else if negb (y mod 400 =? 0) then 365
  else 366.

Definition DayFromYear (y : Z) : Z :=
  365 * (y - 1970) + (y - 1969) / 4 - (y - 1901) / 100 + (y - 1601) / 400.

(** The largest year whose first day is not after day [d].  A year has
    146097/400 days on average, which places the answer within one year of
    the quotient; the two tests settle it. *)
Definition YearFromDay (d : Z) : Z :=
  let y := 1970 + (400 * d) / 146097 in
  if d <? DayFromYear y then y - 1
  else if DayFromYear (y + 1) <=? d then y + 1
  else y.

Definition YearFromTime (t : Z) : Z := YearFromDay (Day t).

Definition InLeapYear (t : Z) : Z :=
  if DaysInYear (YearFromTime t) =? 366 then 1 else 0.

Definition DayWithinYear (t : Z) : Z := Day t - DayFromYear (YearFromTime t).

(** Day number, within a year, of the first day of month [m] (0 = January);
    [leap] is 1 in a leap year and 0 otherwise. *)
Definition monthStart (m leap : Z) : Z :=
  match m with
  | 0 => 0
  | 1 => 31
  | 2 => 59 + leap
  | 3 => 90 + leap
  | 4 => 120 + leap
  | 5 => 151 + leap
  | 6 => 181 + leap
  | 7 => 212 + leap
  | 8 => 243 + leap
  | 9 => 273 + leap
  | 10 => 304 + leap
  | _ => 334 + leap
  end.

(** Number of days of month [m]. *)
Definition daysInMonth (m leap : Z) : Z :=
  match m with
  | 1 => 28 + leap
  | 3 | 5 | 8 | 10 => 30
  | _ => 31
  end.

Definition monthOfYearDay (d leap : Z) : Z :=
  if d <? 31 then 0
  else if d <? 59 + leap then 1
  else if d <? 90 + leap then 2
  else if d <? 120 + leap then 3
  else if d <? 151 + leap then 4
  else if d <? 181 + leap then 5
  else if d <? 212 + leap then 6
  else if d <? 243 + leap then 7
  else if d <? 273 + leap then 8
  else if d <? 304 + leap then 9
  else if d <? 334 + leap then 10
  else 11.

Definition MonthFromTime (t : Z) : Z :=
  monthOfYearDay (DayWithinYear t) (InLeapYear t).

Definition DateFromTime (t : Z) : Z :=
  DayWithinYear t - monthStart (MonthFromTime t) (InLeapYear t) + 1.

Definition WeekDay (t : Z) : Z := (Day t + 4) mod 7.

(** [MakeDay year month date]: the month may lie outside 0..11 and the date
    outside the month; both carry over. *)
Definition MakeDay (year month date : Z) : Z :=
  let ym := year + month / 12 in
  let mn := month mod 12 in
  let leap := if DaysInYear ym =? 366 then 1 else 0 in
  DayFromYear ym + monthStart mn leap + date - 1.

Definition MakeDate (day time : Z) : Z := day * msPerDay + time.

Section LocalTime.

(** Offset of local time from UTC, in milliseconds. *)
Variable tza : Z.

Definition LocalTime (t : Z) : Z := t + tza.
Definition UTC (t : Z) : Z := t - tza.

Definition getDate (d : Z) : Z := DateFromTime (LocalTime d).
Definition getDay (d : Z) : Z := WeekDay (LocalTime d).
Definition getMonth (d : Z) : Z := MonthFromTime (LocalTime d).
Definition getFullYear (d : Z) : Z := YearFromTime (LocalTime d).
(** Milliseconds since local midnight: hours, minutes, seconds and
    milliseconds of the local time taken together. *)
Definition timeOfDay (d : Z) : Z := TimeWithinDay (LocalTime d).

Definition setDate (d dt : Z) : Z :=
  let t := LocalTime d in
  UTC (MakeDate (MakeDay (YearFromTime t) (MonthFromTime t) dt)
                (TimeWithinDay t)).

Definition setMonth (d m : Z) : Z :=
  let t := LocalTime d in
  UTC (MakeDate (MakeDay (YearFromTime t) m (DateFromTime t))
                (TimeWithinDay t)).

End LocalTime.

(** Time value of a UTC calendar date and time (month 1 = January), for
    writing examples. *)
Definition utc (y mo d h mi : Z) : Z :=
  MakeDate (MakeDay y (mo - 1) d) (h * 3600000 + mi * 60000).

End JSDate.

Import JSDate.

(** ** Values of JavaScript used by the handler *)

Local Open Scope string_scope.
Local Open Scope Z_scope.

(** The string held by a truthy value. *)
Definition text_of (o : option string) : string :=
  match o with
  | Some s => s
  | None => EmptyString
  end.

(** A string or [undefined]/[null] is truthy when it is a non-empty string. *)
Definition truthy_str (o : option string) : bool :=
  match o with
  | Some s => negb (String.eqb s EmptyString)
  | None => false
  end.

Definition lower_ascii (c : ascii) : ascii :=
  let n := nat_of_ascii c in
  if (Nat.leb 65 n && Nat.leb n 90)%bool then ascii_of_nat (n + 32) else c.

Fixpoint toLowerCase (s : string) : string :=
  match s with
  | EmptyString => EmptyString
  | String c r => String (lower_ascii c) (toLowerCase r)
  end.

(** The characters of [s] are ASCII. *)
Fixpoint ascii_only (s : string) : bool :=
  match s with
  | EmptyString => true
  | String c r => (Nat.ltb (nat_of_ascii c) 128 && ascii_only r)%bool
  end.

(** [includes s needle]: [needle] occurs in [s]. *)
Fixpoint includes (s needle : string) : bool :=
  if String.prefix needle s then true
  else match s with
       | EmptyString => false
       | String _ r => includes r needle
       end.

Definition string_of_Z (z : Z) : string :=
  DecimalString.NilZero.string_of_int (Z.to_int z).

Definition string_of_nat (n : nat) : string := string_of_Z (Z.of_nat n).

(** What [JSON.parse] returns. *)
#[warnings="-register-all"]
Inductive Json : Type :=
| JNull
| JBool (b : bool)
| JNumber (q : Q)
| JString (s : string)
| JArray (items : list Json)
| JObject (fields : list (string * Json)).

(** A computation of the handler that may throw; [Throw] carries the
    message of the error. *)
Inductive Exc (A : Type) : Type :=
| Ok (a : A)
| Throw (message : string).
Arguments Ok {A} a.
Arguments Throw {A} message.

Fixpoint lookup_field (k : string) (fields : list (string * Json)) : option Json :=
  match fields with
  | [] => None
  | (k', v) :: r => if String.eqb k k' then Some v else lookup_field k r
  end.

(** [v.k] for one of the two property names the handler reads
    ([groupIds], [nameContains]): reading a property of [null] throws, a
    value that is not an object has neither property; [None] is
    [undefined]. *)
Definition get_prop (v : Json) (k : string) : Exc (option Json) :=
  match v with
  | JNull => Throw ("Cannot read properties of null (reading '" ++ k ++ "')")
  | JObject fields => Ok (lookup_field k fields)
  | _ => Ok None
  end.

Definition truthy (o : option Json) : bool :=
  match o with
  | None | Some JNull => false
  | Some (JBool b) => b
  | Some (JNumber q) => negb (Qeq_bool q 0)
  | Some (JString s) => negb (String.eqb s EmptyString)
  | Some (JArray _) | Some (JObject _) => true
  end.

(** ** Sorting *)

Section SortBy.
Context {A : Type} (key : A -> Z).

Fixpoint insert_by (x : A) (l : list A) : list A :=
  match l with
  | [] => [x]
  | y :: r => if key y <=? key x then y :: insert_by x r else x :: y :: r
  end.

(** Ascending by [key]; rows of equal key keep their order. *)
Fixpoint sort_by (l : list A) : list A :=
  match l with
  | [] => []
  | x :: r => insert_by x (sort_by r)
  end.

Definition le_by (a b : A) : Prop := key a <= key b.
End SortBy.

(** ** Data model *)

(** The text of the column [device_filter], told apart by what the handler
    can observe of it: the empty text (falsy, never parsed), a text that
    [JSON.parse] rejects with a [SyntaxError], and a text that it parses to
    the value [v]. *)
Inductive FilterText : Type :=
| EmptyText
| Malformed
| Parses (v : Json).

(** A row of the [schedules] table, with the columns the handler uses; a
    column that is [null] is [None]. *)
Record Schedule : Type := mkSchedule {
  id : string;
  enabled : bool;
  schedule_type : string;
  start_time : Z;
  recurrence_pattern : option string;
  recurrence_days : option (list Z);
  device_filter : option FilterText;
  profile_id : string;
  last_executed_at : option Z
}.

(** A device of the directory.  [device_name] is [None] when
    [device.attributes.name] is not a string, so that calling
    [toLowerCase] on it throws. *)
Record Device : Type := mkDevice {
  device_id : Z;
  device_name : option string
}.

(** The object passed to [update]: [upd_start_time] is [None] when the
    object has no [start_time] property. *)
Record UpdateData : Type := mkUpdateData {
  upd_last_executed_at : option Z;
  upd_start_time : option Z
}.

(** An element of [results]; a property the object does not have is
    [None]. *)
Record Outcome : Type := mkOutcome {
  scheduleId : string;
  profileId : option string;
  devicesCount : option nat;
  success : bool;
  message : option string;
  nextExecution : option Z;
  error : option string
}.

Inductive Body : Type :=
| ErrorBody (err : string) (details : option string)
| MessageBody (msg : string)
| ReportBody (executed failed : nat) (results : list Outcome).

Record Response : Type := mkResponse {
  status : Z;
  body : Body
}.

Record Request : Type := mkRequest {
  method : string;
  x_api_key : option string;
  x_vercel_cron : option string
}.

(** [process.env]. *)
Record Env : Type := mkEnv {
  SCHEDULE_EXECUTOR_API_KEY : option string;
  SUPABASE_URL : option string;
  SUPABASE_SERVICE_ROLE_KEY : option string;
  SIMPLEMDM_API_KEY : option string;
  VITE_SIMPLEMDM_API_KEY : option string
}.

(** Answer of [GET /api/v1/devices]: the request failed (transport error,
    status not ok, body not JSON), or it returned a body whose [data] is a
    list of devices or is missing. *)
Inductive DirectoryReply : Type :=
| DirectoryFailed
| DirectoryBody (data : option (list Device)).

(** Answer of [POST /api/v1/profiles/P/devices/D]. *)
Inductive PushReply : Type :=
| PushAccepted
| PushRejected (status : Z) (text : string)
| PushUnreachable (reason : string).

(** The services outside the handler, as they answer during one run.
    - [select_error]: the error of the query for due schedules, if any;
    - [update_error sid]: the error of the update of row [sid], if any; a
      failed update leaves the table as it was;
    - [directory key sid]: the directory's answer to the listing made for
      schedule [sid];
    - [push key profile device]: the answer to one profile push. *)
Record World : Type := mkWorld {
  select_error : option string;
  update_error : string -> option string;
  directory : string -> string -> DirectoryReply;
  push : string -> string -> Z -> PushReply
}.

Record PushResult : Type := mkPushResult {
  push_success : bool;
  push_error : option string
}.

(** One call of [pushProfileToDevice], kept in the log of a run. *)
Record PushCall : Type := mkPushCall {
  pushed_profile : string;
  pushed_device : Z;
  push_result : PushResult
}.

(** ** calculateNextExecutionTime *)

Definition sortedDays (recurrenceDays : list Z) : list Z :=
  sort_by (fun day => day) recurrenceDays.

Section Executor.

(** Offset of the server's local time from UTC, in milliseconds. *)
Variable tza : Z.

Definition calculateNextExecutionTime
    (currentTime : Z) (pattern : string) (recurrenceDays : option (list Z))
    : option Z :=
  let nextTime := currentTime in
  if String.eqb pattern "daily" then
    Some (setDate tza nextTime (getDate tza nextTime + 1))
  else if String.eqb pattern "weekly" then
    match recurrenceDays with
    | Some ((_ :: _) as days) =>
        let currentDay := getDay tza nextTime in
        match find (fun day => currentDay <? day) (sortedDays days) with
        | None =>
            let nextDay := hd 0 (sortedDays days) in
            Some (setDate tza nextTime
                    (getDate tza nextTime + (7 - currentDay + nextDay)))
        | Some nextDay =>
            Some (setDate tza nextTime
                    (getDate tza nextTime + (nextDay - currentDay)))
        end
    | _ => Some (setDate tza nextTime (getDate tza nextTime + 7))
    end
  else if String.eqb pattern "monthly" then
    Some (setMonth tza nextTime (getMonth tza nextTime + 1))
  else None.

(** ** The helpers that call SimpleMDM *)

Variable w : World.

(** The [data] of the object that [fetchAllDevices] returns; [sid] names
    the schedule for which the listing is made. *)
Definition fetchAllDevices (apiKey sid : string) : option (list Device) :=
  match directory w apiKey sid with
  | DirectoryFailed => Some []
  | DirectoryBody data => data
  end.

(** The callback of [filteredDevices.filter]: the device's name is
    lowered first, then [filter.nameContains]. *)
Definition name_matches (nameContains : Json) (device : Device) : Exc bool :=
  match device_name device with
  | None => Throw "Cannot read properties of undefined (reading 'toLowerCase')"
  | Some name =>
      match nameContains with
      | JString needle => Ok (includes (toLowerCase name) (toLowerCase needle))
      | _ => Throw "filter.nameContains.toLowerCase is not a function"
      end
  end.

Fixpoint filter_exc {A : Type} (f : A -> Exc bool) (l : list A) : Exc (list A) :=
  match l with
  | [] => Ok []
  | x :: r =>
      match f x with
      | Throw m => Throw m
      | Ok b =>
          match filter_exc f r with
          | Throw m => Throw m
          | Ok r' => Ok (if b then x :: r' else r')
          end
      end
  end.

Definition fetchFilteredDevices (filter : Json) (apiKey sid : string)
    : Exc (list Device) :=
  match fetchAllDevices apiKey sid with
  | None => Ok []
  | Some filteredDevices =>
      match get_prop filter "groupIds" with
      | Throw m => Throw m
      | Ok _ =>
          match get_prop filter "nameContains" with
          | Throw m => Throw m
          | Ok nameContains =>
              if truthy nameContains then
                match nameContains with
                | Some v => filter_exc (name_matches v) filteredDevices
                | None => Ok filteredDevices
                end
              else Ok filteredDevices
          end
      end
  end.

Definition pushProfileToDevice (profileId : string) (deviceId : Z)
    (apiKey : string) : PushResult :=
  match push w apiKey profileId deviceId with
  | PushAccepted => {| push_success := true; push_error := None |}
  | PushRejected st text =>
      {| push_success := false;
         push_error := Some ("SimpleMDM API error (" ++ string_of_Z st
                             ++ "): " ++ text) |}
  | PushUnreachable reason =>
      {| push_success := false; push_error := Some reason |}
  end.

(** ** The table *)

Definition apply_update (u : UpdateData) (row : Schedule) : Schedule :=
  {| id := id row;
     enabled := enabled row;
     schedule_type := schedule_type row;
     start_time := match upd_start_time u with
                   | Some t => t
                   | None => start_time row
                   end;
     recurrence_pattern := recurrence_pattern row;
     recurrence_days := recurrence_days row;
     device_filter := device_filter row;
     profile_id := profile_id row;
     last_executed_at := upd_last_executed_at u |}.

(** [update(u).eq('id', sid)] when it succeeds. *)
Definition update_rows (u : UpdateData) (sid : string) (table : list Schedule)
    : list Schedule :=
  map (fun row => if String.eqb (id row) sid then apply_update u row else row)
      table.

Definition is_null {A : Type} (o : option A) : bool :=
  match o with
  | None => true
  | Some _ => false
  end.

Definition fifteen_minutes : Z := 15 * 60 * 1000.

(** The filters of the query for due schedules. *)
Definition due (now : Z) (row : Schedule) : bool :=
  let pastWindow := now - fifteen_minutes in
  (Bool.eqb (enabled row) true
   && (start_time row <=? now)
   && (pastWindow <? start_time row)
   && is_null (last_executed_at row))%bool.

(** The rows that the query returns, ordered by [start_time]. *)
Definition select_due (now : Z) (table : list Schedule) : list Schedule :=
  sort_by start_time (filter (due now) table).

(** ** The pipeline of one schedule *)

Definition updateData_of (now : Z) (schedule : Schedule) : UpdateData :=
  let updateData := {| upd_last_executed_at := Some now;
                       upd_start_time := None |} in
  if (String.eqb (schedule_type schedule) "recurring"
      && truthy_str (recurrence_pattern schedule))%bool then
    match calculateNextExecutionTime (start_time schedule)
            (text_of (recurrence_pattern schedule))
            (recurrence_days schedule) with
    | Some nextTime => {| upd_last_executed_at := None;
                          upd_start_time := Some nextTime |}
    | None => updateData
    end
  else updateData.

Definition targetDevices_of (simpleMdmApiKey : string) (schedule : Schedule)
    : list Device :=
  match device_filter schedule with
  | Some Malformed => []
  | Some (Parses filter) =>
      match fetchFilteredDevices filter simpleMdmApiKey (id schedule) with
      | Ok devices => devices
      | Throw _ => []
      end
  | Some EmptyText | None =>
      match fetchAllDevices simpleMdmApiKey (id schedule) with
      | Some devices => devices
      | None => []
      end
  end.

Definition push_all (simpleMdmApiKey : string) (schedule : Schedule)
    (targetDevices : list Device) : list PushCall :=
  map (fun device =>
         {| pushed_profile := profile_id schedule;
            pushed_device := device_id device;
            push_result := pushProfileToDevice (profile_id schedule)
                             (device_id device) simpleMdmApiKey |})
      targetDevices.

(** The body of the callback of [schedulesToExecute.map]: the element of
    [results], the table after it and the pushes it made. *)
Definition execute_schedule (now : Z) (simpleMdmApiKey : string)
    (schedule : Schedule) (table : list Schedule)
    : Outcome * list Schedule * list PushCall :=
  let updateData := updateData_of now schedule in
  let targetDevices := targetDevices_of simpleMdmApiKey schedule in
  let profileApplicationResults :=
    push_all simpleMdmApiKey schedule targetDevices in
  match update_error w (id schedule) with
  | Some updateError =>
      ({| scheduleId := id schedule;
          profileId := None;
          devicesCount := None;
          success := false;
          message := None;
          nextExecution := None;
          error := Some ("Failed to update schedule: " ++ updateError) |},
       table, profileApplicationResults)
  | None =>
      ({| scheduleId := id schedule;
          profileId := Some (profile_id schedule);
          devicesCount := Some (List.length targetDevices);
          success := true;
          message := Some ("Profile " ++ profile_id schedule ++ " pushed to "
                           ++ string_of_nat (List.length targetDevices)
                           ++ " devices");
          nextExecution := upd_start_time updateData;
          error := None |},
       update_rows updateData (id schedule) table,
       profileApplicationResults)
  end.

(** All the schedules of a run, one after the other. *)
Fixpoint execute_all (now : Z) (simpleMdmApiKey : string)
    (schedules : list Schedule) (table : list Schedule)
    : list Outcome * list Schedule * list PushCall :=
  match schedules with
  | [] => ([], table, [])
  | schedule :: rest =>
      let '(r, table1, pushes1) :=
        execute_schedule now simpleMdmApiKey schedule table in
      let '(rs, table2, pushes2) :=
        execute_all now simpleMdmApiKey rest table1 in
      (r :: rs, table2, (pushes1 ++ pushes2)%list)
  end.

(** ** The handler *)

Record Run : Type := mkRun {
  response : Response;
  table_after : list Schedule;
  pushes : list PushCall
}.

Definition reply (st : Z) (b : Body) (table : list Schedule) : Run :=
  {| response := {| status := st; body := b |};
     table_after := table;
     pushes := [] |}.

Definition isVercelCron (req : Request) : bool :=
  match x_vercel_cron req with
  | Some v => String.eqb v "true"
  | None => false
  end.

Definition same_key (a b : option string) : bool :=
  match a, b with
  | Some x, Some y => String.eqb x y
  | None, None => true
  | _, _ => false
  end.

Definition count_if {A : Type} (p : A -> bool) (l : list A) : nat :=
  List.length (filter p l).

(** The handler from the query for due schedules on: what runs once the
    request has passed the checks of method and API key. *)
Definition run_schedules (env : Env) (now : Z) (table : list Schedule) : Run :=
  if (negb (truthy_str (SUPABASE_URL env))
      || negb (truthy_str (SUPABASE_SERVICE_ROLE_KEY env)))%bool then
    reply 500 (ErrorBody "Database configuration missing" None) table
  else
    match (if truthy_str (SIMPLEMDM_API_KEY env) then SIMPLEMDM_API_KEY env
           else VITE_SIMPLEMDM_API_KEY env) with
    | None => reply 500 (ErrorBody "SimpleMDM API key not configured" None) table
    | Some simpleMdmApiKey =>
        if String.eqb simpleMdmApiKey EmptyString then
          reply 500 (ErrorBody "SimpleMDM API key not configured" None) table
        else
          match select_error w with
          | Some schedulesError =>
              reply 500 (ErrorBody "Failed to fetch schedules"
                                   (Some schedulesError)) table
          | None =>
              let schedulesToExecute := select_due now table in
              match schedulesToExecute with
              | [] => reply 200 (MessageBody "No schedules to execute") table
              | _ :: _ =>
                  let '(results, table', log) :=
                    execute_all now simpleMdmApiKey schedulesToExecute table in
                  {| response :=
                       {| status := 200;
                          body := ReportBody
                                    (count_if success results)
                                    (count_if (fun r => negb (success r)) results)
                                    results |};
                     table_after := table';
                     pushes := log |}
              end
          end
    end.

Definition handler (env : Env) (now : Z) (req : Request)
    (table : list Schedule) : Run :=
  if (negb (String.eqb (method req) "POST")
      && negb (String.eqb (method req) "GET"))%bool then
    reply 405 (ErrorBody "Method not allowed" None) table
  else
    let apiKey := x_api_key req in
    let expectedApiKey := SCHEDULE_EXECUTOR_API_KEY env in
    if (truthy_str expectedApiKey
        && negb (same_key apiKey expectedApiKey)
        && negb (isVercelCron req))%bool then
      reply 401 (ErrorBody "Unauthorized" None) table
    else run_schedules env now table.

End Executor.

(** ** Overlapping runs

    Two invocations of the handler over the same table.  A run reads the
    table once, in its query, and writes it once per schedule, in the update
    that ends the schedule's pipeline; between these steps the other run may
    move.  A sequence of turns fixes the order of the steps. *)

Inductive Phase : Type :=
| Started
| Selected (todo : list Schedule) (results : list Outcome)
| Answered (results : list Outcome).

Record RunState : Type := mkRunState {
  phase : Phase;
  log : list PushCall
}.

Definition run_step (tza : Z) (w : World) (now : Z) (simpleMdmApiKey : string)
    (table : list Schedule) (r : RunState) : list Schedule * RunState :=
  match phase r with
  | Started =>
      (table, {| phase := Selected (select_due now table) []; log := log r |})
  | Selected [] results =>
      (table, {| phase := Answered results; log := log r |})
  | Selected (schedule :: todo) results =>
      let '(o, table', ps) :=
        execute_schedule tza w now simpleMdmApiKey schedule table in
      (table', {| phase := Selected todo (results ++ [o])%list;
                  log := (log r ++ ps)%list |})
  | Answered _ => (table, r)
  end.

Fixpoint run_steps (tza : Z) (w : World) (now : Z) (simpleMdmApiKey : string)
    (n : nat) (table : list Schedule) (r : RunState)
    : list Schedule * RunState :=
  match n with
  | O => (table, r)
  | S n' =>
      let '(table', r') := run_step tza w now simpleMdmApiKey table r in
      run_steps tza w now simpleMdmApiKey n' table' r'
  end.

Inductive Turn : Type := RunA | RunB.

Record System : Type := mkSystem {
  shared : list Schedule;
  runA : RunState;
  runB : RunState
}.

Definition system_step (tza : Z) (w : World) (nowA nowB : Z)
    (simpleMdmApiKey : string) (sys : System) (turn : Turn) : System :=
  match turn with
  | RunA =>
      let '(table', r') :=
        run_step tza w nowA simpleMdmApiKey (shared sys) (runA sys) in
      {| shared := table'; runA := r'; runB := runB sys |}
  | RunB =>
      let '(table', r') :=
        run_step tza w nowB simpleMdmApiKey (shared sys) (runB sys) in
      {| shared := table'; runA := runA sys; runB := r' |}
  end.

Definition interleave (tza : Z) (w : World) (nowA nowB : Z)
    (simpleMdmApiKey : string) (turns : list Turn) (sys : System) : System :=
  fold_left (system_step tza w nowA nowB simpleMdmApiKey) turns sys.

Definition boot (table : list Schedule) : System :=
  {| shared := table;
     runA := {| phase := Started; log := [] |};
     runB := {| phase := Started; log := [] |} |}.

(** The run has executed schedule [sid] and reports it with [success: true]. *)
Definition executed_by (r : RunState) (sid : string) : bool :=
  match phase r with
  | Started => false
  | Selected _ results | Answered results =>
      existsb (fun o => (String.eqb (scheduleId o) sid && success o)%bool) results
  end.

(** ** Predicates of the statements *)

(** The days of a weekly recurrence are weekday indices, 0 (Sunday) to 6
    (Saturday). *)
Definition weekdays (days : option (list Z)) : Prop :=
  match days with
  | Some l => Forall (fun d => 0 <= d <= 6) l
  | None => True
  end.

(** The environment lets a run reach the query: both Supabase settings and
    one of the SimpleMDM keys are set; [key] is the SimpleMDM key used. *)
Definition configured (env : Env) (key : string) : Prop :=
  truthy_str (SUPABASE_URL env) = true /\
  truthy_str (SUPABASE_SERVICE_ROLE_KEY env) = true /\
  (if truthy_str (SIMPLEMDM_API_KEY env) then SIMPLEMDM_API_KEY env
   else VITE_SIMPLEMDM_API_KEY env) = Some key /\
  key <> EmptyString.

Definition allowed_method (req : Request) : Prop :=
  method req = "POST" \/ method req = "GET".

(** The request passes the two checks that precede the run: the method, and
    the API key unless none is expected or the request is Vercel Cron's. *)
Definition admitted (env : Env) (req : Request) : Prop :=
  allowed_method req /\
  (truthy_str (SCHEDULE_EXECUTOR_API_KEY env) = false \/
   x_api_key req = SCHEDULE_EXECUTOR_API_KEY env \/
   isVercelCron req = true).

(** The world [w] with another profile API. *)
Definition with_push (w : World) (p : string -> string -> Z -> PushReply)
    : World :=
  {| select_error := select_error w;
     update_error := update_error w;
     directory := directory w;
     push := p |}.

(** The element of [results] for a schedule whose update failed with
    message [updateError]. *)
Definition update_failure (schedule : Schedule) (updateError : string)
    : Outcome :=
  {| scheduleId := id schedule;
     profileId := None;
     devicesCount := None;
     success := false;
     message := None;
     nextExecution := None;
     error := Some ("Failed to update schedule: " ++ updateError) |}.

(** The three components of [execute_schedule]. *)
Definition outcome_of (tza : Z) (w : World) (now : Z) (key : string)
    (schedule : Schedule) : Outcome :=
  fst (fst (execute_schedule tza w now key schedule [])).

Definition pushes_of (w : World) (key : string) (schedule : Schedule)
    : list PushCall :=
  push_all w key schedule (targetDevices_of w key schedule).

Definition table_after_schedule (tza : Z) (w : World) (now : Z)
    (schedule : Schedule) (table : list Schedule) : list Schedule :=
  match update_error w (id schedule) with
  | Some _ => table
  | None => update_rows (updateData_of tza now schedule) (id schedule) table
  end.

(** The rows of id [sid] are all marked with the time of the run. *)
Definition marked (now : Z) (sid : string) (table : list Schedule) : Prop :=
  forall row, In row table -> id row = sid -> last_executed_at row = Some now.

(** ** Data of the examples *)

Module Sample.

Definition env : Env :=
  {| SCHEDULE_EXECUTOR_API_KEY := Some "executor-secret";
     SUPABASE_URL := Some "https://db.example";
     SUPABASE_SERVICE_ROLE_KEY := Some "service-role";
     SIMPLEMDM_API_KEY := Some "mdm-key";
     VITE_SIMPLEMDM_API_KEY := None |}.

Definition phone : Device := {| device_id := 11; device_name := Some "Lab Phone" |}.
Definition tablet : Device := {| device_id := 12; device_name := Some "Office Tablet" |}.

(** Every service answers well. *)
Definition calm : World :=
  {| select_error := None;
     update_error := fun _ => None;
     directory := fun _ _ => DirectoryBody (Some [phone; tablet]);
     push := fun _ _ _ => PushAccepted |}.

(** The table refuses every update. *)
Definition readonly : World :=
  {| select_error := None;
     update_error := fun _ => Some "connection lost";
     directory := fun _ _ => DirectoryBody (Some [phone; tablet]);
     push := fun _ _ _ => PushAccepted |}.

(** SimpleMDM rejects every push. *)
Definition rejecting : World :=
  {| select_error := None;
     update_error := fun _ => None;
     directory := fun _ _ => DirectoryBody (Some [phone; tablet]);
     push := fun _ _ _ => PushRejected 422 "profile not assignable" |}.

Definition noon : Z := utc 2024 1 31 12 0.

Definition one_shot (sid : string) (t : Z) : Schedule :=
  {| id := sid; enabled := true; schedule_type := "one_shot";
     start_time := t; recurrence_pattern := None; recurrence_days := None;
     device_filter := None; profile_id := "wifi"; last_executed_at := None |}.

Definition recurring (sid pattern : string) (days : option (list Z)) (t : Z)
    : Schedule :=
  {| id := sid; enabled := true; schedule_type := "recurring";
     start_time := t; recurrence_pattern := Some pattern;
     recurrence_days := days;
     device_filter := None; profile_id := "vpn"; last_executed_at := None |}.

Definition broken_filter (sid : string) (t : Z) : Schedule :=
  {| id := sid; enabled := true; schedule_type := "one_shot";
     start_time := t; recurrence_pattern := None; recurrence_days := None;
     device_filter := Some Malformed; profile_id := "wifi";
     last_executed_at := None |}.

Definition filtered (sid : string) (filter : Json) (t : Z) : Schedule :=
  {| id := sid; enabled := true; schedule_type := "one_shot";
     start_time := t; recurrence_pattern := None; recurrence_days := None;
     device_filter := Some (Parses filter); profile_id := "wifi";
     last_executed_at := None |}.

(** The directory lists a device whose name is not a string. *)
Definition nameless : World :=
  {| select_error := None;
     update_error := fun _ => None;
     directory := fun _ _ =>
       DirectoryBody (Some [phone; {| device_id := 13; device_name := None |}]);
     push := fun _ _ _ => PushAccepted |}.

Definition post_with_key : Request :=
  {| method := "POST"; x_api_key := Some "executor-secret";
     x_vercel_cron := None |}.

Definition post_without_key : Request :=
  {| method := "POST"; x_api_key := None; x_vercel_cron := None |}.

Definition cron : Request :=
  {| method := "GET"; x_api_key := None; x_vercel_cron := Some "true" |}.

End Sample.

(** ** Further predicates and variants *)

(** The columns that no update of the handler writes. *)
Definition same_fixed_columns (row row' : Schedule) : Prop :=
  id row' = id row /\
  enabled row' = enabled row /\
  schedule_type row' = schedule_type row /\
  recurrence_pattern row' = recurrence_pattern row /\
  recurrence_days row' = recurrence_days row /\
  device_filter row' = device_filter row /\
  profile_id row' = profile_id row.

(** [l] with some elements left out, the others in their order. *)
Inductive sublist {A : Type} : list A -> list A -> Prop :=
| sublist_nil : sublist [] []
| sublist_skip x l l' : sublist l l' -> sublist l (x :: l')
| sublist_keep x l l' : sublist l l' -> sublist (x :: l) (x :: l').

(** The devices whose name, in lower case, contains [needle] in lower
    case. *)
Definition named_like (needle : string) (devices : list Device) : list Device :=
  filter (fun device =>
            match device_name device with
            | Some name => includes (toLowerCase name) (toLowerCase needle)
            | None => false
            end)
         devices.

(** The pushes that a run over [schedules] makes: for each schedule, in
    order, its profile to each of its target devices. *)
Definition planned_pushes (w : World) (key : string) (schedules : list Schedule)
    : list (string * Z) :=
  flat_map (fun schedule =>
              map (fun device => (profile_id schedule, device_id device))
                  (targetDevices_of w key schedule))
           schedules.

(** The world [w] with another answer of the table to updates. *)
Definition with_update_error (w : World) (u : string -> option string)
    : World :=
  {| select_error := select_error w;
     update_error := u;
     directory := directory w;
     push := push w |}.

(** [n] daily recurrences, one after the other. *)
Fixpoint daily_times (tza : Z) (n : nat) (t : Z) : option Z :=
  match n with
  | O => Some t
  | S n' =>
      match calculateNextExecutionTime tza t "daily" None with
      | Some next => daily_times tza n' next
      | None => None
      end
  end.

(** The answer is the report of a run. *)
Definition is_report (r : Response) : bool :=
  match body r with
  | ReportBody _ _ _ => (status r =? 200)
  | _ => false
  end.

(** What the update of one schedule, and of all the schedules of a run,
    makes of a row. *)
Definition row_after_schedule (tza : Z) (w : World) (now : Z)
    (schedule : Schedule) (row : Schedule) : Schedule :=
  match update_error w (id schedule) with
  | Some _ => row
  | None =>
      if String.eqb (id row) (id schedule)
      then apply_update (updateData_of tza now schedule) row
      else row
  end.

Definition row_after_run (tza : Z) (w : World) (now : Z)
    (schedules : list Schedule) (row : Schedule) : Schedule :=
  fold_left (fun r schedule => row_after_schedule tza w now schedule r)
            schedules row.

(** The row has been executed by the run at [now]: it is marked with the
    time of the run, or its start time is more than a day after the start
    of the due window. *)
Definition settled (now : Z) (row : Schedule) : Prop :=
  last_executed_at row = Some now \/
  now - fifteen_minutes + msPerDay < start_time row.

(** The environment with another [VITE_SIMPLEMDM_API_KEY], and with another
    [SIMPLEMDM_API_KEY]. *)
Definition with_vite_key (env : Env) (v : option string) : Env :=
  {| SCHEDULE_EXECUTOR_API_KEY := SCHEDULE_EXECUTOR_API_KEY env;
     SUPABASE_URL := SUPABASE_URL env;
     SUPABASE_SERVICE_ROLE_KEY := SUPABASE_SERVICE_ROLE_KEY env;
     SIMPLEMDM_API_KEY := SIMPLEMDM_API_KEY env;
     VITE_SIMPLEMDM_API_KEY := v |}.

Definition with_simplemdm_key (env : Env) (v : option string) : Env :=
  {| SCHEDULE_EXECUTOR_API_KEY := SCHEDULE_EXECUTOR_API_KEY env;
     SUPABASE_URL := SUPABASE_URL env;
     SUPABASE_SERVICE_ROLE_KEY := SUPABASE_SERVICE_ROLE_KEY env;
     SIMPLEMDM_API_KEY := v;
     VITE_SIMPLEMDM_API_KEY := VITE_SIMPLEMDM_API_KEY env |}.

(** * Properties *)

(** ** Dates *)

Module JSDateFacts.

Lemma monthOfYearDay_range d leap : 0 <= monthOfYearDay d leap <= 11.
Proof.
  unfold monthOfYearDay.
  repeat match goal with
         | |- context [if ?c then _ else _] => destruct c
         end; lia.
Qed.

Lemma MonthFromTime_range t : 0 <= MonthFromTime t <= 11.
Proof. apply monthOfYearDay_range. Qed.

Lemma MakeDay_in_year y m dt :
  0 <= m <= 11 ->
  MakeDay y m dt =
  DayFromYear y + monthStart m (if DaysInYear y =? 366 then 1 else 0) + dt - 1.
Proof.
  intros Hm. unfold MakeDay.
  rewrite (Z.div_small m 12), (Z.mod_small m 12) by lia.
  now rewrite Z.add_0_r.
Qed.

(** The day that [MakeDay] gives back from the fields of a time is the day
    of that time. *)
Lemma MakeDay_fields t k :
  MakeDay (YearFromTime t) (MonthFromTime t) (DateFromTime t + k) = Day t + k.
Proof.
  rewrite MakeDay_in_year by apply MonthFromTime_range.
  unfold DateFromTime, DayWithinYear, InLeapYear. lia.
Qed.

Lemma MakeDate_Day t k :
  MakeDate (Day t + k) (TimeWithinDay t) = t + k * msPerDay.
Proof.
  unfold MakeDate, Day, TimeWithinDay.
  pose proof (Z.div_mod t msPerDay) as H.
  assert (msPerDay <> 0) by (unfold msPerDay; lia).
  specialize (H ltac:(assumption)). lia.
Qed.

(** [d.setDate(d.getDate() + k)] moves the time by [k] days. *)
Lemma setDate_getDate_plus tza t k :
  setDate tza t (getDate tza t + k) = t + k * msPerDay.
Proof.
  unfold setDate, getDate.
  rewrite MakeDay_fields, MakeDate_Day. unfold UTC, LocalTime. lia.
Qed.

Lemma timeOfDay_plus_days tza t k :
  timeOfDay tza (t + k * msPerDay) = timeOfDay tza t.
Proof.
  unfold timeOfDay, TimeWithinDay, LocalTime.
  replace (t + k * msPerDay + tza) with (t + tza + k * msPerDay) by lia.
  apply Z_mod_plus_full.
Qed.

Lemma getDay_range tza t : 0 <= getDay tza t <= 6.
Proof.
  unfold getDay, WeekDay.
  pose proof (Z.mod_pos_bound (Day (LocalTime tza t) + 4) 7 ltac:(lia)). lia.
Qed.

Lemma getDay_plus_days tza t k :
  getDay tza (t + k * msPerDay) = (getDay tza t + k) mod 7.
Proof.
  unfold getDay, WeekDay, Day, LocalTime.
  replace (t + k * msPerDay + tza) with (t + tza + k * msPerDay) by lia.
  rewrite Z.div_add by (unfold msPerDay; lia).
  rewrite Zplus_mod_idemp_l. f_equal. lia.
Qed.

Lemma DaysInYear_cases y : DaysInYear y = 365 \/ DaysInYear y = 366.
Proof.
  unfold DaysInYear.
  repeat match goal with
         | |- context [if ?c then _ else _] => destruct c
         end; auto.
Qed.

Lemma DayFromYear_succ y : DayFromYear (y + 1) = DayFromYear y + DaysInYear y.
Proof.
  unfold DayFromYear, DaysInYear.
  replace (y + 1 - 1969) with (y - 1968) by lia.
  replace (y + 1 - 1901) with (y - 1900) by lia.
  replace (y + 1 - 1601) with (y - 1600) by lia.
  destruct (Z.eqb_spec (y mod 4) 0) as [E4|E4];
    destruct (Z.eqb_spec (y mod 100) 0) as [E100|E100];
    destruct (Z.eqb_spec (y mod 400) 0) as [E400|E400]; cbn [negb];
    Z.div_mod_to_equations; lia.
Qed.

(** Four hundred years have 146097 days: the first day of a year is close
    to the multiple of the mean length of a year. *)
Lemma DayFromYear_bounds y :
  146097 * (y - 1970) - 506 <= 400 * DayFromYear y
  <= 146097 * (y - 1970) + 589.
Proof. unfold DayFromYear. Z.div_mod_to_equations. lia. Qed.

(** [YearFromDay d] is the year that contains day [d]. *)
Lemma YearFromDay_spec d :
  DayFromYear (YearFromDay d) <= d < DayFromYear (YearFromDay d + 1).
Proof.
  unfold YearFromDay.
  set (y := 1970 + 400 * d / 146097).
  assert (Hy : 146097 * (y - 1970) <= 400 * d
               < 146097 * (y - 1970) + 146097).
  { unfold y. Z.div_mod_to_equations. lia. }
  pose proof (DayFromYear_bounds (y - 1)).
  pose proof (DayFromYear_bounds y).
  pose proof (DayFromYear_bounds (y + 1)).
  pose proof (DayFromYear_bounds (y + 1 + 1)).
  destruct (d <? DayFromYear y) eqn:E1.
  - apply Z.ltb_lt in E1. replace (y - 1 + 1) with y by lia. lia.
  - apply Z.ltb_ge in E1.
    destruct (DayFromYear (y + 1) <=? d) eqn:E2.
    + apply Z.leb_le in E2. lia.
    + apply Z.leb_gt in E2. lia.
Qed.

Lemma monthStart_succ m leap :
  0 <= m <= 10 -> 0 <= leap <= 1 ->
  monthStart m leap + 28 <= monthStart (m + 1) leap.
Proof.
  intros Hm Hl.
  assert (m = 0 \/ m = 1 \/ m = 2 \/ m = 3 \/ m = 4 \/ m = 5 \/ m = 6 \/
          m = 7 \/ m = 8 \/ m = 9 \/ m = 10) as Hc by lia.
  destruct Hc
    as [-> | [-> | [-> | [-> | [-> | [-> | [-> | [-> | [-> | [-> | ->]]]]]]]]]];
    match goal with
    | |- context [monthStart (?a + 1) _] =>
        let b := eval compute in (a + 1) in change (a + 1) with b
    end;
    unfold monthStart; lia.
Qed.

Lemma MakeDay_next_month t :
  Day t + 28 <= MakeDay (YearFromTime t) (MonthFromTime t + 1) (DateFromTime t).
Proof.
  pose proof (MakeDay_fields t 0) as Hd. rewrite !Z.add_0_r in Hd.
  rewrite <- Hd.
  pose proof (MonthFromTime_range t) as Hm.
  set (y := YearFromTime t) in *. set (m := MonthFromTime t) in *.
  set (leap := if DaysInYear y =? 366 then 1 else 0).
  assert (Hl : 0 <= leap <= 1) by (unfold leap; destruct (_ =? _); lia).
  rewrite (MakeDay_in_year y m) by lia. fold leap.
  destruct (Z.eq_dec m 11) as [E|E].
  - rewrite E. unfold MakeDay.
    change ((11 + 1) / 12) with 1. change ((11 + 1) mod 12) with 0.
    rewrite DayFromYear_succ. simpl monthStart.
    destruct (DaysInYear_cases y) as [Hy|Hy]; unfold leap; rewrite Hy;
      simpl; lia.
  - rewrite (MakeDay_in_year y (m + 1)) by lia. fold leap.
    pose proof (monthStart_succ m leap ltac:(lia) Hl). lia.
Qed.

Lemma DayFromYear_mono a b : a <= b -> DayFromYear a <= DayFromYear b.
Proof. intros H. unfold DayFromYear. Z.div_mod_to_equations. lia. Qed.

Lemma YearFromDay_unique y d :
  DayFromYear y <= d < DayFromYear (y + 1) -> YearFromDay d = y.
Proof.
  intros Hy. pose proof (YearFromDay_spec d) as Hs.
  destruct (Z.lt_trichotomy (YearFromDay d) y) as [Hlt | [E | Hgt]].
  - pose proof (DayFromYear_mono (YearFromDay d + 1) y ltac:(lia)). lia.
  - exact E.
  - pose proof (DayFromYear_mono (y + 1) (YearFromDay d) ltac:(lia)). lia.
Qed.

Lemma Day_MakeDate day tod :
  0 <= tod < msPerDay ->
  Day (MakeDate day tod) = day /\ TimeWithinDay (MakeDate day tod) = tod.
Proof.
  intros H. unfold Day, TimeWithinDay, MakeDate.
  rewrite Z.add_comm, Z.div_add, Z_mod_plus_full by (unfold msPerDay; lia).
  rewrite Z.div_small, Z.mod_small by lia. split; lia.
Qed.

Lemma monthOfYearDay_monthStart m leap dt :
  0 <= m <= 11 -> 0 <= leap <= 1 -> 1 <= dt <= daysInMonth m leap ->
  monthOfYearDay (monthStart m leap + dt - 1) leap = m.
Proof.
  intros Hm Hl Hd.
  assert (m = 0 \/ m = 1 \/ m = 2 \/ m = 3 \/ m = 4 \/ m = 5 \/ m = 6 \/
          m = 7 \/ m = 8 \/ m = 9 \/ m = 10 \/ m = 11) as Hc by lia.
  destruct Hc
    as [-> | [-> | [-> | [-> | [-> | [-> | [-> | [-> | [-> | [-> | [-> | ->]]]]]]]]]]];
    unfold daysInMonth in Hd; unfold monthStart, monthOfYearDay;
    repeat match goal with
           | |- context [?a <? ?b] => destruct (Z.ltb_spec a b); try lia
           end.
Qed.

(** The fields of the time made from a year, a month, a day that the month
    has, and a time of day. *)
Lemma fields_of_MakeDay y m dt tod :
  0 <= m <= 11 ->
  1 <= dt <= daysInMonth m (if DaysInYear y =? 366 then 1 else 0) ->
  0 <= tod < msPerDay ->
  let t := MakeDate (MakeDay y m dt) tod in
  YearFromTime t = y /\ MonthFromTime t = m /\ DateFromTime t = dt /\
  TimeWithinDay t = tod.
Proof.
  intros Hm Hd Ht t. subst t.
  destruct (Day_MakeDate (MakeDay y m dt) tod Ht) as [HD HT].
  set (leap := if DaysInYear y =? 366 then 1 else 0) in *.
  assert (Hl : 0 <= leap <= 1) by (unfold leap; destruct (_ =? _); lia).
  assert (Hlen : DaysInYear y = 365 + leap).
  { unfold leap. destruct (DaysInYear_cases y) as [E|E]; rewrite E;
      reflexivity. }
  assert (Hday : MakeDay y m dt = DayFromYear y + monthStart m leap + dt - 1)
    by (now apply MakeDay_in_year).
  assert (Hin : 0 <= monthStart m leap + dt - 1 < 365 + leap).
  { assert (m = 0 \/ m = 1 \/ m = 2 \/ m = 3 \/ m = 4 \/ m = 5 \/ m = 6 \/
            m = 7 \/ m = 8 \/ m = 9 \/ m = 10 \/ m = 11) as Hc by lia.
    destruct Hc
      as [-> | [-> | [-> | [-> | [-> | [-> | [-> | [-> | [-> | [-> | [-> | ->]]]]]]]]]]];
      unfold daysInMonth in Hd; unfold monthStart; lia. }
  assert (HY : YearFromTime (MakeDate (MakeDay y m dt) tod) = y).
  { unfold YearFromTime. rewrite HD. apply YearFromDay_unique.
    rewrite DayFromYear_succ. lia. }
  assert (HW : DayWithinYear (MakeDate (MakeDay y m dt) tod)
               = monthStart m leap + dt - 1).
  { unfold DayWithinYear. rewrite HD, HY. lia. }
  assert (HL : InLeapYear (MakeDate (MakeDay y m dt) tod) = leap).
  { unfold InLeapYear. now rewrite HY. }
  assert (HM : MonthFromTime (MakeDate (MakeDay y m dt) tod) = m).
  { unfold MonthFromTime. rewrite HW, HL.
    now apply monthOfYearDay_monthStart. }
  repeat split; auto.
  unfold DateFromTime. rewrite HW, HM, HL. lia.
Qed.

Lemma monthOfYearDay_start d leap :
  0 <= d -> 0 <= leap <= 1 -> monthStart (monthOfYearDay d leap) leap <= d.
Proof.
  intros Hd Hl. unfold monthOfYearDay.
  repeat match goal with
         | |- context [?a <? ?b] => destruct (Z.ltb_spec a b)
         end; unfold monthStart; lia.
Qed.

Lemma DateFromTime_pos t : 1 <= DateFromTime t.
Proof.
  unfold DateFromTime, MonthFromTime.
  assert (0 <= DayWithinYear t).
  { unfold DayWithinYear, YearFromTime.
    pose proof (YearFromDay_spec (Day t)). lia. }
  assert (0 <= InLeapYear t <= 1)
    by (unfold InLeapYear; destruct (_ =? _); lia).
  pose proof (monthOfYearDay_start (DayWithinYear t) (InLeapYear t)). lia.
Qed.

Lemma TimeWithinDay_range t : 0 <= TimeWithinDay t < msPerDay.
Proof. apply Z.mod_pos_bound. reflexivity. Qed.

(** [d.setMonth(d.getMonth() + 1)] when the next month has the day of the
    month of [d]: the month is the next one, of the next year after
    December, the day of the month and the time of day are those of [d]. *)
Lemma setMonth_next_same_day tza t :
  let y := getFullYear tza t + (getMonth tza t + 1) / 12 in
  let m := (getMonth tza t + 1) mod 12 in
  let next := setMonth tza t (getMonth tza t + 1) in
  getDate tza t <= daysInMonth m (if DaysInYear y =? 366 then 1 else 0) ->
  getFullYear tza next = y /\ getMonth tza next = m /\
  getDate tza next = getDate tza t /\ timeOfDay tza next = timeOfDay tza t.
Proof.
  intros y m next Hd.
  unfold getFullYear, getMonth, getDate, timeOfDay in *.
  subst next. unfold setMonth, getMonth.
  set (lt := LocalTime tza t) in *.
  assert (Hm : 0 <= m <= 11).
  { pose proof (Z.mod_pos_bound (MonthFromTime lt + 1) 12 ltac:(lia)).
    unfold m. lia. }
  assert (Hmk : MakeDay (YearFromTime lt) (MonthFromTime lt + 1)
                        (DateFromTime lt)
                = MakeDay y m (DateFromTime lt)).
  { unfold MakeDay. fold y m.
    rewrite (Z.div_small m 12), (Z.mod_small m 12) by lia.
    now rewrite Z.add_0_r. }
  rewrite Hmk.
  replace (LocalTime tza
             (UTC tza (MakeDate (MakeDay y m (DateFromTime lt))
                                (TimeWithinDay lt))))
    with (MakeDate (MakeDay y m (DateFromTime lt)) (TimeWithinDay lt))
    by (unfold LocalTime, UTC; lia).
  apply fields_of_MakeDay; auto.
  - split; [apply DateFromTime_pos | exact Hd].
  - apply TimeWithinDay_range.
Qed.

(** [d.setMonth(d.getMonth() + 1)] moves the time forward, by 28 days at
    least, and keeps the time of day. *)
Lemma setMonth_next tza t :
  t + 28 * msPerDay <= setMonth tza t (getMonth tza t + 1) /\
  timeOfDay tza (setMonth tza t (getMonth tza t + 1)) = timeOfDay tza t.
Proof.
  unfold setMonth, getMonth, timeOfDay.
  set (lt := LocalTime tza t).
  pose proof (MakeDay_next_month lt) as Hd.
  set (day := MakeDay _ _ _) in *.
  pose proof (MakeDate_Day lt (day - Day lt)) as Hm.
  replace (Day lt + (day - Day lt)) with day in Hm by lia.
  rewrite Hm. unfold UTC. split.
  - assert (28 * msPerDay <= (day - Day lt) * msPerDay).
    { apply Z.mul_le_mono_nonneg_r; [unfold msPerDay|]; lia. }
    unfold lt, LocalTime in *. lia.
  - unfold LocalTime, TimeWithinDay.
    replace (lt + (day - Day lt) * msPerDay - tza + tza)
      with (lt + (day - Day lt) * msPerDay) by lia.
    apply Z_mod_plus_full.
Qed.

End JSDateFacts.

Import JSDateFacts.

Example utc_epoch : utc 1970 1 1 0 0 = 0.
Proof. reflexivity. Qed.

Example utc_2024 : utc 2024 1 1 9 0 = 1704099600000.
Proof. reflexivity. Qed.

Example fields_2024_02_29 :
  let t := utc 2024 2 29 23 59 in
  (getFullYear 0 t, getMonth 0 t, getDate 0 t, getDay 0 t) = (2024, 1, 29, 4).
Proof. vm_compute. reflexivity. Qed.

(** ** Sorting *)

Section SortByFacts.
Context {A : Type} (key : A -> Z).

Lemma insert_by_perm x l : Permutation (insert_by key x l) (x :: l).
Proof.
  induction l as [|y r IH]; simpl.
  - apply Permutation_refl.
  - destruct (key y <=? key x).
    + eapply perm_trans; [apply perm_skip, IH | apply perm_swap].
    + apply Permutation_refl.
Qed.

Lemma sort_by_perm l : Permutation (sort_by key l) l.
Proof.
  induction l as [|x r IH]; simpl.
  - apply perm_nil.
  - eapply perm_trans; [apply insert_by_perm | apply perm_skip, IH].
Qed.

Lemma sort_by_In x l : In x (sort_by key l) <-> In x l.
Proof.
  split; apply Permutation_in;
    [apply sort_by_perm | apply Permutation_sym, sort_by_perm].
Qed.

Lemma insert_by_sorted x l :
  StronglySorted (le_by key) l -> StronglySorted (le_by key) (insert_by key x l).
Proof.
  induction 1 as [|y r Hs IH Hall]; simpl.
  - repeat constructor.
  - destruct (key y <=? key x) eqn:E.
    + constructor; [exact IH|].
      apply Forall_forall. intros z Hz.
      apply (Permutation_in _ (insert_by_perm x r)) in Hz.
      destruct Hz as [<-|Hz].
      * unfold le_by. lia.
      * rewrite Forall_forall in Hall. now apply Hall.
    + constructor; [now constructor|].
      constructor; [unfold le_by; lia|].
      eapply Forall_impl; [|exact Hall].
      unfold le_by. intros; lia.
Qed.

Lemma sort_by_sorted l : StronglySorted (le_by key) (sort_by key l).
Proof.
  induction l; simpl; [constructor | now apply insert_by_sorted].
Qed.

Lemma sort_by_length l : List.length (sort_by key l) = List.length l.
Proof. apply Permutation_length, sort_by_perm. Qed.

End SortByFacts.

(** ** The days of a weekly recurrence *)

Lemma sortedDays_In d days : In d (sortedDays days) <-> In d days.
Proof. apply sort_by_In. Qed.

Lemma sortedDays_sorted days : StronglySorted Z.le (sortedDays days).
Proof.
  exact (sort_by_sorted (fun day : Z => day) days).
Qed.

(** On an ascending list [find] returns the least element that passes a
    lower bound. *)
Lemma find_above_sorted cur l x :
  StronglySorted Z.le l ->
  find (fun day => cur <? day) l = Some x ->
  In x l /\ cur < x /\ forall d, In d l -> cur < d -> x <= d.
Proof.
  induction 1 as [|y r Hs IH Hall]; simpl; [discriminate|].
  destruct (cur <? y) eqn:E.
  - intros [= <-]. apply Z.ltb_lt in E.
    repeat split; auto.
    intros d [<-|Hd] _; [lia|].
    rewrite Forall_forall in Hall. now apply Hall.
  - intros Hf. destruct (IH Hf) as (Hin & Hlt & Hmin).
    apply Z.ltb_ge in E.
    repeat split; auto.
    intros d [<-|Hd] Hcd; [lia | now apply Hmin].
Qed.

Lemma find_above_none cur l :
  find (fun day => cur <? day) l = None <-> forall d, In d l -> d <= cur.
Proof.
  split.
  - intros Hf d Hd. pose proof (find_none _ _ Hf d Hd) as E.
    simpl in E. now apply Z.ltb_ge in E.
  - intros H. induction l as [|y r IH]; simpl; [reflexivity|].
    destruct (cur <? y) eqn:E.
    + apply Z.ltb_lt in E. specialize (H y (or_introl eq_refl)). lia.
    + apply IH. intros d Hd. apply H. now right.
Qed.

Lemma hd_sorted_least l d :
  StronglySorted Z.le l -> In d l -> hd 0 l <= d.
Proof.
  intros Hs Hd. destruct Hs as [|y r _ Hall]; [contradiction|].
  simpl. destruct Hd as [<-|Hd]; [lia|].
  rewrite Forall_forall in Hall. now apply Hall.
Qed.

Lemma hd_In_nonempty (l : list Z) : l <> [] -> In (hd 0 l) l.
Proof. destruct l; [congruence | now left]. Qed.

Lemma sortedDays_nonempty days : days <> [] -> sortedDays days <> [].
Proof.
  intros Hne Hs. apply Hne.
  apply length_zero_iff_nil.
  unfold sortedDays in Hs.
  rewrite <- (sort_by_length (fun day : Z => day) days), Hs. reflexivity.
Qed.

Lemma weekly_unfold tza t days :
  days <> [] ->
  calculateNextExecutionTime tza t "weekly" (Some days) =
  match find (fun day => getDay tza t <? day) (sortedDays days) with
  | None =>
      Some (setDate tza t (getDate tza t
                           + (7 - getDay tza t + hd 0 (sortedDays days))))
  | Some nextDay =>
      Some (setDate tza t (getDate tza t + (nextDay - getDay tza t)))
  end.
Proof. destruct days; [congruence | reflexivity]. Qed.

(** The step of a weekly recurrence, in days: to the least configured day
    after the current weekday, or else to the least configured day of the
    following week. *)
Lemma weekly_next tza t days :
  days <> [] ->
  exists k,
    calculateNextExecutionTime tza t "weekly" (Some days)
      = Some (t + k * msPerDay) /\
    ((exists target, In target days /\ getDay tza t < target /\
        (forall d, In d days -> getDay tza t < d -> target <= d) /\
        k = target - getDay tza t)
     \/
     (exists target, In target days /\
        (forall d, In d days -> d <= getDay tza t) /\
        (forall d, In d days -> target <= d) /\
        k = 7 - getDay tza t + target)).
Proof.
  intros Hne. rewrite (weekly_unfold _ _ _ Hne).
  destruct (find (fun day => getDay tza t <? day) (sortedDays days)) as [x|] eqn:Hf.
  - destruct (find_above_sorted _ _ _ (sortedDays_sorted days) Hf)
      as (Hin & Hlt & Hmin).
    exists (x - getDay tza t). split.
    + now rewrite setDate_getDate_plus.
    + left. exists x. repeat split.
      * now apply sortedDays_In.
      * exact Hlt.
      * intros d Hd. apply Hmin. now apply sortedDays_In.
  - exists (7 - getDay tza t + hd 0 (sortedDays days)). split.
    + now rewrite setDate_getDate_plus.
    + right. exists (hd 0 (sortedDays days)). repeat split.
      * now apply sortedDays_In, hd_In_nonempty, sortedDays_nonempty.
      * intros d Hd. apply (proj1 (find_above_none _ _) Hf).
        now apply sortedDays_In.
      * intros d Hd. apply hd_sorted_least; [apply sortedDays_sorted|].
        now apply sortedDays_In.
Qed.

Lemma weekly_no_days tza t days :
  days = None \/ days = Some [] ->
  calculateNextExecutionTime tza t "weekly" days = Some (t + 7 * msPerDay).
Proof.
  intros [-> | ->]; unfold calculateNextExecutionTime; simpl;
    now rewrite setDate_getDate_plus.
Qed.

(** C6. Weekly recurrence.  With a non-empty list of days the next time is
    [target - current] days after the last one, [target] being the least
    configured day after the weekday [current] of the last time; when no
    configured day is after [current] it is [7 - current + target] days
    after, [target] being the least configured day; with no days it is 7
    days after.  The time of day never changes. *)
Theorem weekly_recurrence tza t :
  (forall days target,
      In target days ->
      getDay tza t < target ->
      (forall d, In d days -> getDay tza t < d -> target <= d) ->
      calculateNextExecutionTime tza t "weekly" (Some days)
        = Some (t + (target - getDay tza t) * msPerDay)) /\
  (forall days target,
      In target days ->
      (forall d, In d days -> d <= getDay tza t) ->
      (forall d, In d days -> target <= d) ->
      calculateNextExecutionTime tza t "weekly" (Some days)
        = Some (t + (7 - getDay tza t + target) * msPerDay)) /\
  calculateNextExecutionTime tza t "weekly" (Some [])
    = Some (t + 7 * msPerDay) /\
  calculateNextExecutionTime tza t "weekly" None
    = Some (t + 7 * msPerDay) /\
  (forall days, exists next,
      calculateNextExecutionTime tza t "weekly" days = Some next /\
      timeOfDay tza next = timeOfDay tza t).
Proof.
  repeat split.
  - intros days target Hin Hlt Hmin.
    assert (Hne : days <> []) by (intros ->; contradiction).
    destruct (weekly_next tza t days Hne) as (k & -> & Hk).
    destruct Hk as [(x & Hx & Hxl & Hxm & ->) | (x & Hx & Hall & _ & ->)].
    + pose proof (Hmin x Hx Hxl). pose proof (Hxm target Hin Hlt).
      assert (x = target) as -> by lia. reflexivity.
    + specialize (Hall target Hin). lia.
  - intros days target Hin Hall Hmin.
    assert (Hne : days <> []) by (intros ->; contradiction).
    destruct (weekly_next tza t days Hne) as (k & -> & Hk).
    destruct Hk as [(x & Hx & Hxl & _ & ->) | (x & Hx & _ & Hxm & ->)].
    + specialize (Hall x Hx). lia.
    + pose proof (Hmin x Hx). pose proof (Hxm target Hin).
      assert (x = target) as -> by lia. reflexivity.
  - apply weekly_no_days. now right.
  - apply weekly_no_days. now left.
  - intros [[|d ds]|].
    + exists (t + 7 * msPerDay). split; [apply weekly_no_days; now right|].
      apply timeOfDay_plus_days.
    + destruct (weekly_next tza t (d :: ds)) as (k & Hk & _); [discriminate|].
      exists (t + k * msPerDay). split; [exact Hk|].
      apply timeOfDay_plus_days.
    + exists (t + 7 * msPerDay). split; [apply weekly_no_days; now left|].
      apply timeOfDay_plus_days.
Qed.

(** Monday with Wednesday and Friday configured: Wednesday of the same
    week; Friday: Wednesday of the next week. *)
Lemma weekly_recurrence_witness :
  calculateNextExecutionTime 0 (utc 2024 1 1 9 0) "weekly" (Some [5; 3])
    = Some (utc 2024 1 3 9 0) /\
  calculateNextExecutionTime 0 (utc 2024 1 5 9 0) "weekly" (Some [5; 3])
    = Some (utc 2024 1 10 9 0).
Proof.
  split.
  - destruct (weekly_recurrence 0 (utc 2024 1 1 9 0)) as (H & _).
    rewrite (H [5; 3] 3).
    + reflexivity.
    + simpl; auto.
    + vm_compute; reflexivity.
    + intros d [<-|[<-|[]]]; vm_compute; intros; congruence.
  - destruct (weekly_recurrence 0 (utc 2024 1 5 9 0)) as (_ & H & _).
    rewrite (H [5; 3] 3).
    + reflexivity.
    + simpl; auto.
    + intros d [<-|[<-|[]]]; vm_compute; congruence.
    + intros d [<-|[<-|[]]]; vm_compute; congruence.
Defined.

(** ** Daily, monthly and other patterns *)

Lemma daily_next tza t days :
  calculateNextExecutionTime tza t "daily" days = Some (t + msPerDay) /\
  timeOfDay tza (t + msPerDay) = timeOfDay tza t.
Proof.
  split.
  - unfold calculateNextExecutionTime. simpl.
    rewrite setDate_getDate_plus. f_equal; lia.
  - replace (t + msPerDay) with (t + 1 * msPerDay) by lia.
    apply timeOfDay_plus_days.
Qed.

Lemma other_pattern_none tza t pattern days :
  pattern <> "daily" -> pattern <> "weekly" -> pattern <> "monthly" ->
  calculateNextExecutionTime tza t pattern days = None.
Proof.
  intros Hd Hw Hm. unfold calculateNextExecutionTime.
  apply String.eqb_neq in Hd, Hw, Hm. now rewrite Hd, Hw, Hm.
Qed.

Example daily_seven_times :
  let step t :=
    match calculateNextExecutionTime 0 t "daily" None with
    | Some next => next
    | None => t
    end in
  step (step (step (step (step (step (step (utc 2024 1 1 9 0)))))))
  = utc 2024 1 8 9 0.
Proof. vm_compute. reflexivity. Qed.

Example monthly_from_january_15 :
  calculateNextExecutionTime 0 (utc 2024 1 15 9 0) "monthly" None
  = Some (utc 2024 2 15 9 0).
Proof. vm_compute. reflexivity. Qed.

Example monthly_from_december :
  calculateNextExecutionTime 0 (utc 2023 12 31 23 30) "monthly" None
  = Some (utc 2024 1 31 23 30).
Proof. vm_compute. reflexivity. Qed.

(** Local time two hours ahead of UTC: 23:00 UTC on a Sunday is Monday
    there, and Wednesday is two days later. *)
Example weekly_in_local_time :
  calculateNextExecutionTime 7200000 (utc 2023 12 31 23 0) "weekly"
    (Some [3; 5])
  = Some (utc 2024 1 2 23 0).
Proof. vm_compute. reflexivity. Qed.

(** C7. Monthly recurrence from 31 January 2024, 09:00: the code answers
    2 March 2024, 09:00.  The month has moved by two and the day of the
    month is not kept, where the comment of the case reads "Move to the
    next month, same day". *)
Theorem monthly_from_january_31 :
  let last := utc 2024 1 31 9 0 in
  let next := utc 2024 3 2 9 0 in
  calculateNextExecutionTime 0 last "monthly" None = Some next /\
  (getMonth 0 last, getDate 0 last) = (0, 31) /\
  (getMonth 0 next, getDate 0 next) = (2, 2).
Proof. vm_compute. repeat split. Qed.

(** ** The query for due schedules *)

Lemma due_iff now row :
  due now row = true <->
  enabled row = true /\ last_executed_at row = None /\
  now - fifteen_minutes < start_time row <= now.
Proof.
  unfold due, is_null.
  rewrite !andb_true_iff, eqb_true_iff, Z.leb_le, Z.ltb_lt.
  destruct (last_executed_at row); intuition congruence.
Qed.

Lemma select_due_In now table row :
  In row (select_due now table) <->
  In row table /\ enabled row = true /\ last_executed_at row = None /\
  now - 15 * 60 * 1000 < start_time row <= now.
Proof.
  unfold select_due. rewrite sort_by_In, filter_In, due_iff. reflexivity.
Qed.

(** C2 (amended). The query returns exactly the rows that are enabled, not
    yet executed and whose start time is after [now - 15 minutes] and not
    after [now], in ascending order of start time. *)
Theorem select_due_spec now table :
  (forall row,
      In row (select_due now table) <->
      In row table /\ enabled row = true /\ last_executed_at row = None /\
      now - 15 * 60 * 1000 < start_time row <= now) /\
  StronglySorted (fun a b => start_time a <= start_time b)
                 (select_due now table) /\
  Permutation (select_due now table) (filter (due now) table).
Proof.
  split; [|split].
  - intros row. apply select_due_In.
  - exact (sort_by_sorted start_time (filter (due now) table)).
  - apply sort_by_perm.
Qed.

(** C2 (as stated). A schedule whose start time is exactly 15 minutes before
    [now] is not selected: the lower bound of the window is excluded. *)
Lemma select_due_excludes_lower_bound :
  ~ (forall now table row,
        In row (select_due now table) <->
        In row table /\ enabled row = true /\ last_executed_at row = None /\
        now - 15 * 60 * 1000 <= start_time row <= now).
Proof.
  intros H.
  pose (row := Sample.one_shot "a" (Sample.noon - 15 * 60 * 1000)).
  destruct (H Sample.noon [row] row) as [_ Hsel].
  assert (Hin : In row (select_due Sample.noon [row])).
  { apply Hsel. repeat split; simpl; auto; vm_compute; congruence. }
  vm_compute in Hin. exact Hin.
Qed.

(** ** One schedule *)

Lemma execute_schedule_eq tza w now key schedule table :
  execute_schedule tza w now key schedule table =
  (outcome_of tza w now key schedule,
   table_after_schedule tza w now schedule table,
   pushes_of w key schedule).
Proof.
  unfold outcome_of, table_after_schedule, pushes_of, execute_schedule.
  destruct (update_error w (id schedule)); reflexivity.
Qed.

Lemma outcome_of_id tza w now key schedule :
  scheduleId (outcome_of tza w now key schedule) = id schedule.
Proof.
  unfold outcome_of, execute_schedule.
  destruct (update_error w (id schedule)); reflexivity.
Qed.

Lemma outcome_of_update_ok tza w now key schedule :
  update_error w (id schedule) = None ->
  outcome_of tza w now key schedule =
  {| scheduleId := id schedule;
     profileId := Some (profile_id schedule);
     devicesCount := Some (List.length (targetDevices_of w key schedule));
     success := true;
     message := Some ("Profile " ++ profile_id schedule ++ " pushed to "
                      ++ string_of_nat
                           (List.length (targetDevices_of w key schedule))
                      ++ " devices");
     nextExecution := upd_start_time (updateData_of tza now schedule);
     error := None |}.
Proof.
  intros H. unfold outcome_of, execute_schedule. now rewrite H.
Qed.

Lemma outcome_of_update_failed tza w now key schedule e :
  update_error w (id schedule) = Some e ->
  outcome_of tza w now key schedule = update_failure schedule e.
Proof.
  intros H. unfold outcome_of, execute_schedule. now rewrite H.
Qed.

(** ** All the schedules of a run *)

Lemma execute_all_results tza w now key schedules table :
  fst (fst (execute_all tza w now key schedules table)) =
  map (outcome_of tza w now key) schedules.
Proof.
  revert table. induction schedules as [|s r IH]; intros table; simpl.
  - reflexivity.
  - rewrite execute_schedule_eq.
    specialize (IH (table_after_schedule tza w now s table)).
    destruct (execute_all tza w now key r _) as [[rs t2] p2].
    simpl in *. now rewrite IH.
Qed.

Lemma table_after_schedule_ids tza w now schedule table :
  map id (table_after_schedule tza w now schedule table) = map id table.
Proof.
  unfold table_after_schedule, update_rows.
  destruct (update_error w (id schedule)); [reflexivity|].
  rewrite map_map. apply map_ext. intros row.
  destruct (String.eqb (id row) (id schedule)); reflexivity.
Qed.

(** A row whose update fails is in the table after the run as it was
    before. *)
Lemma table_after_schedule_keeps tza w now schedule table row e :
  update_error w (id row) = Some e ->
  In row table ->
  In row (table_after_schedule tza w now schedule table).
Proof.
  intros He Hin. unfold table_after_schedule.
  destruct (update_error w (id schedule)) eqn:Hu; [exact Hin|].
  unfold update_rows. apply in_map_iff. exists row. split; [|exact Hin].
  destruct (String.eqb_spec (id row) (id schedule)) as [E|E]; [|reflexivity].
  rewrite E in He. congruence.
Qed.

Lemma execute_all_keeps tza w now key schedules table row e :
  update_error w (id row) = Some e ->
  In row table ->
  In row (snd (fst (execute_all tza w now key schedules table))).
Proof.
  intros He. revert table.
  induction schedules as [|s r IH]; intros table Hin; simpl.
  - exact Hin.
  - rewrite execute_schedule_eq.
    specialize (IH (table_after_schedule tza w now s table)
                   (table_after_schedule_keeps tza w now s table row e He Hin)).
    destruct (execute_all tza w now key r _) as [[rs t2] p2].
    exact IH.
Qed.

Lemma count_if_split {A : Type} (p : A -> bool) (l : list A) :
  (count_if p l + count_if (fun x => negb (p x)) l = List.length l)%nat.
Proof.
  unfold count_if. induction l as [|x r IH]; simpl; [reflexivity|].
  destruct (p x); simpl; lia.
Qed.

(** ** The handler *)

Lemma same_key_false a b : same_key a b = false <-> a <> b.
Proof.
  destruct a as [x|], b as [y|]; simpl; try (split; congruence).
  rewrite String.eqb_neq. split; congruence.
Qed.

Lemma allowed_method_check req :
  allowed_method req ->
  (negb (String.eqb (method req) "POST")
   && negb (String.eqb (method req) "GET"))%bool = false.
Proof. intros [-> | ->]; reflexivity. Qed.

Lemma handler_admitted tza w env now req table :
  admitted env req ->
  handler tza w env now req table = run_schedules tza w env now table.
Proof.
  intros [Hm Hk]. unfold handler. rewrite (allowed_method_check _ Hm).
  destruct Hk as [Hk | [Hk | Hk]].
  - now rewrite Hk.
  - rewrite Hk.
    assert (E : same_key (SCHEDULE_EXECUTOR_API_KEY env)
                         (SCHEDULE_EXECUTOR_API_KEY env) = true).
    { destruct (SCHEDULE_EXECUTOR_API_KEY env); simpl;
        [apply String.eqb_refl | reflexivity]. }
    rewrite E. simpl. now rewrite andb_false_r.
  - rewrite Hk. simpl. now rewrite andb_false_r.
Qed.

(** What a configured run answers when the query succeeds and returns
    schedules. *)
Lemma run_schedules_report tza w env key now table :
  configured env key ->
  select_error w = None ->
  select_due now table <> [] ->
  run_schedules tza w env now table =
  let '(results, table', log) :=
    execute_all tza w now key (select_due now table) table in
  {| response :=
       {| status := 200;
          body := ReportBody (count_if success results)
                             (count_if (fun r => negb (success r)) results)
                             results |};
     table_after := table';
     pushes := log |}.
Proof.
  intros (Hu & Hs & Hk & Hne) Hsel Hdue. unfold run_schedules.
  rewrite Hu, Hs, Hk, Hsel. simpl.
  apply String.eqb_neq in Hne. rewrite Hne.
  destruct (select_due now table); [congruence | reflexivity].
Qed.

(** C10. When the query returns schedules, the run answers 200 with one
    element of [results] per selected schedule, in the order of the
    selection, and the two counts add up to the number of selected
    schedules. *)
Theorem report_counts tza w env key now req table :
  admitted env req ->
  configured env key ->
  select_error w = None ->
  select_due now table <> [] ->
  exists results,
    response (handler tza w env now req table) =
      {| status := 200;
         body := ReportBody (count_if success results)
                            (count_if (fun r => negb (success r)) results)
                            results |} /\
    map scheduleId results = map id (select_due now table) /\
    List.length results = List.length (select_due now table) /\
    (count_if success results
       + count_if (fun r => negb (success r)) results
     = List.length (select_due now table))%nat.
Proof.
  intros Ha Hc Hs Hd.
  rewrite (handler_admitted _ _ _ _ _ _ Ha).
  rewrite (run_schedules_report _ _ _ _ _ _ Hc Hs Hd).
  pose proof (execute_all_results tza w now key (select_due now table) table)
    as Hr.
  destruct (execute_all tza w now key (select_due now table) table)
    as [[results table'] log].
  simpl in Hr. subst results.
  eexists. split; [reflexivity|].
  assert (Hlen : List.length (map (outcome_of tza w now key)
                                  (select_due now table))
                 = List.length (select_due now table))
    by apply length_map.
  repeat split.
  - rewrite map_map. apply map_ext. intros s. apply outcome_of_id.
  - exact Hlen.
  - rewrite count_if_split. exact Hlen.
Qed.

Lemma report_counts_witness :
  exists results,
    response (handler 0 Sample.rejecting Sample.env Sample.noon Sample.cron
                [Sample.one_shot "a" Sample.noon;
                 Sample.broken_filter "b" (Sample.noon - 1000)]) =
      {| status := 200;
         body := ReportBody (count_if success results)
                            (count_if (fun r => negb (success r)) results)
                            results |} /\
    map scheduleId results = ["b"; "a"].
Proof.
  destruct (report_counts 0 Sample.rejecting Sample.env "mdm-key" Sample.noon
              Sample.cron
              [Sample.one_shot "a" Sample.noon;
               Sample.broken_filter "b" (Sample.noon - 1000)])
    as (results & Hr & Hids & _).
  - split; [right; reflexivity | right; right; reflexivity].
  - repeat split; discriminate.
  - reflexivity.
  - vm_compute. discriminate.
  - exists results. split; [exact Hr | exact Hids].
Defined.

(** C9. Once the update of the schedule succeeds, the schedule is reported
    with [success: true] and the number of its target devices, whatever
    the profile API answered to the pushes: the reported element is the
    same under any other profile API. *)
Theorem push_failures_do_not_gate tza w now key schedule table :
  update_error w (id schedule) = None ->
  let o := fst (fst (execute_schedule tza w now key schedule table)) in
  success o = true /\
  devicesCount o = Some (List.length (targetDevices_of w key schedule)) /\
  forall p,
    fst (fst (execute_schedule tza (with_push w p) now key schedule table)) = o.
Proof.
  intros Hu o. subst o. rewrite !execute_schedule_eq. simpl.
  rewrite (outcome_of_update_ok _ _ _ _ _ Hu). simpl.
  repeat split. intros p. rewrite execute_schedule_eq. simpl.
  now rewrite (outcome_of_update_ok tza (with_push w p) now key schedule Hu).
Qed.

(** Every push rejected, and the schedule still succeeds with two devices. *)
Lemma push_failures_do_not_gate_witness :
  let s := Sample.one_shot "a" Sample.noon in
  let '(o, _, log) :=
    execute_schedule 0 Sample.rejecting Sample.noon "mdm-key" s [s] in
  success o = true /\ devicesCount o = Some 2%nat /\
  map (fun c => push_success (push_result c)) log = [false; false].
Proof.
  pose proof (push_failures_do_not_gate 0 Sample.rejecting Sample.noon
                "mdm-key" (Sample.one_shot "a" Sample.noon)
                [Sample.one_shot "a" Sample.noon] eq_refl) as H.
  vm_compute in H. destruct H as (H1 & H2 & _).
  vm_compute. repeat split; assumption.
Defined.

(** C5. A request that does not present the expected API key, one being
    configured, and that is not Vercel Cron's, is refused before anything
    is read or written: with 401 "Unauthorized" when its method is POST or
    GET, and with 405 otherwise.  A POST or GET request of Vercel Cron is
    let through to the run whatever key it carries. *)
Theorem api_key_gate tza w env now req table :
  (truthy_str (SCHEDULE_EXECUTOR_API_KEY env) = true ->
   x_api_key req <> SCHEDULE_EXECUTOR_API_KEY env ->
   isVercelCron req = false ->
   let r := handler tza w env now req table in
   table_after r = table /\ pushes r = [] /\
   (status (response r) = 401 \/ status (response r) = 405) /\
   (allowed_method req ->
    response r = {| status := 401; body := ErrorBody "Unauthorized" None |})) /\
  (allowed_method req ->
   isVercelCron req = true ->
   handler tza w env now req table = run_schedules tza w env now table).
Proof.
  split.
  - intros Hk Hne Hc r. subst r. unfold handler.
    apply same_key_false in Hne. rewrite Hk, Hne, Hc.
    destruct (negb (String.eqb (method req) "POST")
              && negb (String.eqb (method req) "GET"))%bool eqn:Hm; simpl.
    + repeat split; auto.
      intros Ha. rewrite (allowed_method_check _ Ha) in Hm. discriminate.
    + repeat split; auto.
  - intros Hm Hc. apply handler_admitted. split; auto.
Qed.

Lemma api_key_gate_witness :
  response (handler 0 Sample.calm Sample.env Sample.noon
              Sample.post_without_key [Sample.one_shot "a" Sample.noon])
    = {| status := 401; body := ErrorBody "Unauthorized" None |} /\
  status (response (handler 0 Sample.calm Sample.env Sample.noon
                      Sample.cron
                      [Sample.one_shot "a" Sample.noon])) = 200.
Proof.
  split.
  - destruct (api_key_gate 0 Sample.calm Sample.env Sample.noon
                Sample.post_without_key [Sample.one_shot "a" Sample.noon])
      as [H _].
    destruct H as (_ & _ & _ & H);
      [reflexivity | discriminate | reflexivity |].
    apply H. left. reflexivity.
  - destruct (api_key_gate 0 Sample.calm Sample.env Sample.noon
                Sample.cron [Sample.one_shot "a" Sample.noon])
      as [_ H].
    rewrite H; [reflexivity | right; reflexivity | reflexivity].
Defined.

(** ** The next execution time is later *)

Lemma msPerDay_pos : 0 < msPerDay.
Proof. reflexivity. Qed.

Lemma next_time_later tza t pattern days next :
  weekdays days ->
  calculateNextExecutionTime tza t pattern days = Some next ->
  t < next.
Proof.
  intros Hw Hn. pose proof msPerDay_pos as Hms.
  destruct (String.eqb_spec pattern "daily") as [->|Hd].
  - destruct (daily_next tza t days) as [E _]. rewrite E in Hn.
    injection Hn as <-. lia.
  - destruct (String.eqb_spec pattern "weekly") as [->|Hwk].
    + destruct days as [[|d ds]|].
      * rewrite weekly_no_days in Hn by now right. injection Hn as <-. lia.
      * destruct (weekly_next tza t (d :: ds)) as (k & E & Hk);
          [discriminate|].
        rewrite E in Hn. injection Hn as <-.
        pose proof (getDay_range tza t) as Hr.
        assert (1 <= k).
        { destruct Hk as [(x & _ & Hx & _ & ->) | (x & Hx & _ & _ & ->)];
            [lia|].
          simpl in Hw. rewrite Forall_forall in Hw.
          specialize (Hw x Hx). lia. }
        nia.
      * rewrite weekly_no_days in Hn by now left. injection Hn as <-. lia.
    + destruct (String.eqb_spec pattern "monthly") as [->|Hm].
      * unfold calculateNextExecutionTime in Hn. simpl in Hn.
        injection Hn as <-.
        destruct (setMonth_next tza t) as [H _]. lia.
      * rewrite other_pattern_none in Hn by assumption. discriminate.
Qed.

(** ** The update that ends a schedule's pipeline *)

Lemma update_rows_row u sid table row' :
  In row' (update_rows u sid table) ->
  id row' = sid ->
  last_executed_at row' = upd_last_executed_at u /\
  forall t, upd_start_time u = Some t -> start_time row' = t.
Proof.
  unfold update_rows. intros Hin Hid.
  apply in_map_iff in Hin. destruct Hin as (row & E & _).
  destruct (String.eqb_spec (id row) sid) as [Hs|Hs].
  - subst row'. simpl. split; [reflexivity|]. now intros t ->.
  - subst row'. contradiction.
Qed.

Lemma update_rows_ids u sid table :
  map id (update_rows u sid table) = map id table.
Proof.
  unfold update_rows. rewrite map_map. apply map_ext. intros row.
  destruct (String.eqb (id row) sid); reflexivity.
Qed.

(** A row that is marked executed is not returned by the query, whatever
    the time of the query. *)
Lemma executed_not_due now table row :
  In row (select_due now table) -> last_executed_at row = None.
Proof.
  intros H. apply select_due_In in H. tauto.
Qed.

Lemma updateData_of_cases tza now schedule :
  (exists pattern next,
      schedule_type schedule = "recurring" /\
      recurrence_pattern schedule = Some pattern /\ pattern <> EmptyString /\
      calculateNextExecutionTime tza (start_time schedule) pattern
        (recurrence_days schedule) = Some next /\
      updateData_of tza now schedule =
        {| upd_last_executed_at := None; upd_start_time := Some next |})
  \/
  ((schedule_type schedule <> "recurring" \/
    truthy_str (recurrence_pattern schedule) = false \/
    calculateNextExecutionTime tza (start_time schedule)
      (text_of (recurrence_pattern schedule)) (recurrence_days schedule)
      = None) /\
   updateData_of tza now schedule =
     {| upd_last_executed_at := Some now; upd_start_time := None |}).
Proof.
  unfold updateData_of.
  destruct (String.eqb_spec (schedule_type schedule) "recurring") as [Ht|Ht];
    [|right; split; [now left | reflexivity]].
  destruct (truthy_str (recurrence_pattern schedule)) eqn:Hp;
    [|right; split; [now right; left | reflexivity]].
  simpl.
  destruct (calculateNextExecutionTime tza (start_time schedule)
              (text_of (recurrence_pattern schedule))
              (recurrence_days schedule)) as [next|] eqn:Hn;
    [|right; split; [now right; right | reflexivity]].
  left. destruct (recurrence_pattern schedule) as [pattern|];
    [|discriminate].
  exists pattern, next. simpl in *. repeat split; auto.
  intros ->. discriminate.
Qed.

(** C3. The update that ends the pipeline of a schedule, when it succeeds.
    A schedule that is not recurring, or whose pattern gives no next time,
    has [last_executed_at] set to the time of the run and is not selected
    by any later query.  A recurring schedule whose pattern gives a next
    time has [start_time] set to it, later than the previous start time,
    and [last_executed_at] reset to null.  The table keeps its rows. *)
Theorem finalization tza w now key schedule table :
  update_error w (id schedule) = None ->
  weekdays (recurrence_days schedule) ->
  let table' := snd (fst (execute_schedule tza w now key schedule table)) in
  map id table' = map id table /\
  (schedule_type schedule <> "recurring" ->
   (forall row, In row table' -> id row = id schedule ->
                last_executed_at row = Some now) /\
   (forall now' row, In row (select_due now' table') ->
                     id row <> id schedule)) /\
  (forall pattern next,
      schedule_type schedule = "recurring" ->
      recurrence_pattern schedule = Some pattern -> pattern <> EmptyString ->
      calculateNextExecutionTime tza (start_time schedule) pattern
        (recurrence_days schedule) = Some next ->
      start_time schedule < next /\
      forall row, In row table' -> id row = id schedule ->
                  start_time row = next /\ last_executed_at row = None) /\
  (schedule_type schedule = "recurring" ->
   (truthy_str (recurrence_pattern schedule) = false \/
    calculateNextExecutionTime tza (start_time schedule)
      (text_of (recurrence_pattern schedule)) (recurrence_days schedule)
      = None) ->
   (forall row, In row table' -> id row = id schedule ->
                last_executed_at row = Some now) /\
   (forall now' row, In row (select_due now' table') ->
                     id row <> id schedule)).
Proof.
  intros Hu Hw table'. subst table'.
  rewrite execute_schedule_eq. simpl.
  unfold table_after_schedule. rewrite Hu.
  assert (Hterminal :
    updateData_of tza now schedule =
      {| upd_last_executed_at := Some now; upd_start_time := None |} ->
    (forall row,
        In row (update_rows (updateData_of tza now schedule) (id schedule)
                  table) ->
        id row = id schedule -> last_executed_at row = Some now) /\
    (forall now' row,
        In row (select_due now'
                  (update_rows (updateData_of tza now schedule) (id schedule)
                     table)) ->
        id row <> id schedule)).
  { intros E. rewrite E.
    assert (Hrow : forall row,
               In row (update_rows
                         {| upd_last_executed_at := Some now;
                            upd_start_time := None |} (id schedule) table) ->
               id row = id schedule -> last_executed_at row = Some now).
    { intros row Hin Hid.
      now destruct (update_rows_row _ _ _ _ Hin Hid) as [-> _]. }
    split; [exact Hrow|].
    intros now' row Hsel Hid.
    pose proof (executed_not_due _ _ _ Hsel) as Hnull.
    apply select_due_In in Hsel. destruct Hsel as [Hin _].
    rewrite (Hrow row Hin Hid) in Hnull. discriminate. }
  split; [apply update_rows_ids|].
  destruct (updateData_of_cases tza now schedule)
    as [(p & n & Ht & Hp & Hne & Hn & E) | [Hc E]].
  - split; [intros Hnr; contradiction|].
    split.
    + intros pattern next _ Hp' _ Hn'.
      rewrite Hp in Hp'. injection Hp' as <-.
      rewrite Hn in Hn'. injection Hn' as <-.
      split; [eapply next_time_later; eauto|].
      intros row Hin Hid. rewrite E in Hin.
      destruct (update_rows_row _ _ _ _ Hin Hid) as [Hl Hs].
      split; [now apply Hs | exact Hl].
    + intros _ [Hf | Hnone].
      * rewrite Hp in Hf. simpl in Hf.
        apply String.eqb_neq in Hne. rewrite Hne in Hf. discriminate.
      * rewrite Hp in Hnone. simpl in Hnone. congruence.
  - split; [intros _; now apply Hterminal|].
    split.
    + intros pattern next Ht Hp Hne Hn.
      destruct Hc as [Hc | [Hc | Hc]].
      * contradiction.
      * rewrite Hp in Hc. simpl in Hc.
        apply String.eqb_neq in Hne. rewrite Hne in Hc. discriminate.
      * rewrite Hp in Hc. simpl in Hc. congruence.
    + intros _ _. now apply Hterminal.
Qed.

(** A weekly schedule of Mondays and Wednesdays that fired on Wednesday
    31 January 2024 is set to Monday 5 February. *)
Lemma finalization_witness :
  let s := Sample.recurring "d" "weekly" (Some [1; 3]) Sample.noon in
  let table' :=
    snd (fst (execute_schedule 0 Sample.calm Sample.noon "mdm-key" s [s])) in
  map id table' = ["d"] /\
  map start_time table' = [utc 2024 2 5 12 0] /\
  start_time s < utc 2024 2 5 12 0.
Proof.
  intros s table'.
  destruct (finalization 0 Sample.calm Sample.noon "mdm-key" s [s])
    as (Hids & _ & Hnext & _).
  - reflexivity.
  - simpl. repeat constructor; lia.
  - split; [exact Hids|].
    split; [reflexivity|].
    apply (Hnext "weekly" (utc 2024 2 5 12 0)).
    + reflexivity.
    + reflexivity.
    + discriminate.
    + reflexivity.
Defined.

(** ** What the run reports for a selected schedule *)

Lemma run_reports_schedule tza w env key now req table schedule :
  admitted env req ->
  configured env key ->
  select_error w = None ->
  In schedule (select_due now table) ->
  exists executed failed results,
    response (handler tza w env now req table) =
      {| status := 200; body := ReportBody executed failed results |} /\
    In (outcome_of tza w now key schedule) results /\
    table_after (handler tza w env now req table) =
      snd (fst (execute_all tza w now key (select_due now table) table)).
Proof.
  intros Ha Hc Hs Hin.
  assert (Hd : select_due now table <> []) by (intros E; now rewrite E in Hin).
  rewrite (handler_admitted _ _ _ _ _ _ Ha).
  rewrite (run_schedules_report _ _ _ _ _ _ Hc Hs Hd).
  pose proof (execute_all_results tza w now key (select_due now table) table)
    as Hr.
  destruct (execute_all tza w now key (select_due now table) table)
    as [[results table'] log].
  simpl in Hr. subst results.
  do 3 eexists. split; [reflexivity|]. split; [|reflexivity].
  now apply in_map.
Qed.

(** ** A failed update *)

(** C4 (amended). When the update that ends a selected schedule's pipeline
    fails, the run still answers 200 and reports the schedule with
    [success: false] and the error; the row of the schedule is left as it
    was, with [last_executed_at] null, and the same query selects it
    again. *)
Theorem failed_update_reported tza w env key now req table schedule e :
  admitted env req ->
  configured env key ->
  select_error w = None ->
  In schedule (select_due now table) ->
  update_error w (id schedule) = Some e ->
  let r := handler tza w env now req table in
  (exists executed failed results,
      response r =
        {| status := 200; body := ReportBody executed failed results |} /\
      In (update_failure schedule e) results) /\
  In schedule (table_after r) /\
  last_executed_at schedule = None /\
  In schedule (select_due now (table_after r)).
Proof.
  intros Ha Hc Hs Hin Hu r. subst r.
  destruct (run_reports_schedule tza w env key now req table schedule
              Ha Hc Hs Hin) as (ex & fl & results & Hr & Ho & Ht).
  rewrite (outcome_of_update_failed _ _ _ _ _ _ Hu) in Ho.
  pose proof (proj1 (select_due_In now table schedule) Hin)
    as (Hmem & Hen & Hnull & Hwin).
  assert (Hkept : In schedule (table_after (handler tza w env now req table))).
  { rewrite Ht. eapply execute_all_keeps; eauto. }
  split; [exists ex, fl, results; now split|].
  split; [exact Hkept|].
  split; [exact Hnull|].
  apply select_due_In. auto.
Qed.

Lemma failed_update_reported_witness :
  let s := Sample.one_shot "a" Sample.noon in
  let r := handler 0 Sample.readonly Sample.env Sample.noon
             Sample.post_with_key [s] in
  In s (table_after r) /\ In s (select_due Sample.noon (table_after r)).
Proof.
  intros s r.
  destruct (failed_update_reported 0 Sample.readonly Sample.env "mdm-key"
              Sample.noon Sample.post_with_key [s] s "connection lost")
    as (_ & H1 & _ & H2).
  - split; [left; reflexivity | right; left; reflexivity].
  - repeat split; discriminate.
  - reflexivity.
  - vm_compute. left. reflexivity.
  - reflexivity.
  - split; [exact H1 | exact H2].
Defined.

(** C4 (as stated). After a run in which the update of a due one-time
    schedule failed, the row is not marked: [last_executed_at] is still
    null, and a second run pushes the profile to the same devices again. *)
Lemma failed_update_leaves_unclaimed :
  let s := Sample.one_shot "a" Sample.noon in
  let r1 := handler 0 Sample.readonly Sample.env Sample.noon
              Sample.post_with_key [s] in
  let r2 := handler 0 Sample.readonly Sample.env (Sample.noon + 60000)
              Sample.post_with_key (table_after r1) in
  map success (match body (response r1) with
               | ReportBody _ _ results => results
               | _ => []
               end) = [false] /\
  map last_executed_at (table_after r1) = [None] /\
  map id (select_due (Sample.noon + 60000) (table_after r1)) = ["a"] /\
  map pushed_device (pushes r1) = [11; 12] /\
  map pushed_device (pushes r2) = [11; 12].
Proof. vm_compute. repeat split. Qed.

(** ** The target devices *)

Lemma fetchFilteredDevices_directory_failed w filter key sid :
  directory w key sid = DirectoryFailed ->
  fetchFilteredDevices w filter key sid = Ok [] \/
  exists m, fetchFilteredDevices w filter key sid = Throw m.
Proof.
  intros Hd. unfold fetchFilteredDevices, fetchAllDevices. rewrite Hd.
  destruct (get_prop filter "groupIds") as [g|m]; [|right; now exists m].
  destruct (get_prop filter "nameContains") as [n|m]; [|right; now exists m].
  left. destruct (truthy n); [|reflexivity].
  destruct n; reflexivity.
Qed.

(** C8. The target devices of a schedule are always computed: no
    error of the filter or of the directory leaves the block that computes
    them.  They are none when the filter text cannot be parsed, when the
    listing of the directory fails, and when applying a parsed filter
    throws; without a filter they are the devices that the directory
    lists.  A schedule whose filter text cannot be parsed makes no push
    and, provided its update succeeds, is reported with [success: true]
    and [devicesCount: 0]. *)
Theorem device_resolution tza w now key schedule table :
  (device_filter schedule = Some Malformed ->
   targetDevices_of w key schedule = []) /\
  (directory w key (id schedule) = DirectoryFailed ->
   targetDevices_of w key schedule = []) /\
  (forall filter m,
      device_filter schedule = Some (Parses filter) ->
      fetchFilteredDevices w filter key (id schedule) = Throw m ->
      targetDevices_of w key schedule = []) /\
  (forall devices,
      device_filter schedule = None ->
      directory w key (id schedule) = DirectoryBody (Some devices) ->
      targetDevices_of w key schedule = devices) /\
  (device_filter schedule = Some Malformed ->
   update_error w (id schedule) = None ->
   let '(o, _, log) := execute_schedule tza w now key schedule table in
   success o = true /\ devicesCount o = Some 0%nat /\ error o = None /\
   log = []).
Proof.
  repeat split.
  - intros Hf. unfold targetDevices_of. now rewrite Hf.
  - intros Hd. unfold targetDevices_of.
    destruct (device_filter schedule) as [[| |filter]|].
    + unfold fetchAllDevices. now rewrite Hd.
    + reflexivity.
    + destruct (fetchFilteredDevices_directory_failed w filter key
                  (id schedule) Hd) as [-> | (m & ->)]; reflexivity.
    + unfold fetchAllDevices. now rewrite Hd.
  - intros filter m Hf Ht. unfold targetDevices_of. now rewrite Hf, Ht.
  - intros devices Hf Hd. unfold targetDevices_of, fetchAllDevices.
    now rewrite Hf, Hd.
  - intros Hf Hu. rewrite execute_schedule_eq.
    rewrite (outcome_of_update_ok _ _ _ _ _ Hu).
    unfold pushes_of, targetDevices_of. rewrite Hf. simpl. auto.
Qed.

Lemma device_resolution_witness :
  let s := Sample.broken_filter "b" Sample.noon in
  targetDevices_of Sample.calm "mdm-key" s = [] /\
  let '(o, _, log) :=
    execute_schedule 0 Sample.calm Sample.noon "mdm-key" s [s] in
  success o = true /\ devicesCount o = Some 0%nat /\ error o = None /\
  log = [].
Proof.
  intros s.
  destruct (device_resolution 0 Sample.calm Sample.noon "mdm-key" s [s])
    as (H1 & _ & _ & _ & H5).
  split.
  - apply H1. reflexivity.
  - apply H5; reflexivity.
Defined.

(** ** Runs that follow one another, and runs that overlap *)

(** A run that is alone makes the steps of the handler: after the query and
    one step per selected schedule it has the results, the table and the
    pushes of [execute_all]. *)
Lemma run_steps_S tza w now key n table r :
  run_steps tza w now key (S n) table r =
  run_steps tza w now key n
    (fst (run_step tza w now key table r))
    (snd (run_step tza w now key table r)).
Proof. simpl. now destruct (run_step tza w now key table r). Qed.

Lemma run_steps_selected tza w now key todo results lg table :
  run_steps tza w now key (S (List.length todo)) table
    {| phase := Selected todo results; log := lg |} =
  let '(rs, table', ps) := execute_all tza w now key todo table in
  (table', {| phase := Answered (results ++ rs)%list;
              log := (lg ++ ps)%list |}).
Proof.
  revert results lg table.
  induction todo as [|s r IH]; intros results lg table.
  - simpl. now rewrite !app_nil_r.
  - change (List.length (s :: r)) with (S (List.length r)).
    rewrite run_steps_S. unfold run_step at 1 2. cbn [phase log].
    destruct (execute_schedule tza w now key s table) as [[o t1] p1] eqn:E.
    cbn [fst snd]. rewrite IH. simpl. rewrite E.
    destruct (execute_all tza w now key r t1) as [[rs t2] p2].
    now rewrite <- !app_assoc.
Qed.

Lemma run_alone tza w now key table :
  run_steps tza w now key (2 + List.length (select_due now table)) table
    {| phase := Started; log := [] |} =
  let '(rs, table', ps) :=
    execute_all tza w now key (select_due now table) table in
  (table', {| phase := Answered rs; log := ps |}).
Proof.
  change (2 + ?n)%nat with (S (S n)).
  rewrite run_steps_S. unfold run_step at 1 2. cbn [phase log fst snd].
  apply run_steps_selected.
Qed.

Lemma update_rows_unconditional u sid table row :
  In row table -> id row = sid ->
  In (apply_update u row) (update_rows u sid table).
Proof.
  intros Hin Hid. unfold update_rows. apply in_map_iff.
  exists row. split; [|exact Hin].
  apply String.eqb_eq in Hid. now rewrite Hid.
Qed.

Lemma update_rows_other u sid table row' :
  In row' (update_rows u sid table) -> id row' <> sid -> In row' table.
Proof.
  unfold update_rows. intros Hin Hid.
  apply in_map_iff in Hin. destruct Hin as (row & E & Hrow).
  destruct (String.eqb_spec (id row) sid) as [Hs|Hs].
  - subst row'. simpl in Hid. contradiction.
  - now subst row'.
Qed.

Lemma updateData_of_not_recurring tza now schedule :
  schedule_type schedule <> "recurring" ->
  updateData_of tza now schedule =
    {| upd_last_executed_at := Some now; upd_start_time := None |}.
Proof.
  intros H. unfold updateData_of.
  apply String.eqb_neq in H. now rewrite H.
Qed.

Lemma table_after_schedule_marked tza w now s sid table :
  (id s = sid -> schedule_type s <> "recurring") ->
  marked now sid table ->
  marked now sid (table_after_schedule tza w now s table).
Proof.
  intros Hs Hm. unfold table_after_schedule.
  destruct (update_error w (id s)); [exact Hm|].
  intros row Hin Hid.
  destruct (String.eqb_spec (id s) sid) as [E|E].
  - rewrite (updateData_of_not_recurring _ _ _ (Hs E)) in Hin.
    rewrite <- E in Hid.
    now destruct (update_rows_row _ _ _ _ Hin Hid) as [-> _].
  - apply Hm; [|exact Hid].
    eapply update_rows_other; [exact Hin | congruence].
Qed.

Lemma table_after_schedule_marks tza w now s table :
  update_error w (id s) = None ->
  schedule_type s <> "recurring" ->
  marked now (id s) (table_after_schedule tza w now s table).
Proof.
  intros Hu Hs row Hin Hid. unfold table_after_schedule in Hin.
  rewrite Hu, (updateData_of_not_recurring _ _ _ Hs) in Hin.
  now destruct (update_rows_row _ _ _ _ Hin Hid) as [-> _].
Qed.

Lemma execute_all_marked tza w now key schedules sid table :
  (forall s, In s schedules -> id s = sid -> schedule_type s <> "recurring") ->
  marked now sid table ->
  marked now sid (snd (fst (execute_all tza w now key schedules table))).
Proof.
  revert table. induction schedules as [|s r IH]; intros table Hs Hm.
  - exact Hm.
  - simpl. rewrite execute_schedule_eq.
    specialize (IH (table_after_schedule tza w now s table)).
    destruct (execute_all tza w now key r _) as [[rs t2] p2]. simpl in *.
    apply IH.
    + intros s' Hin. apply Hs. now right.
    + apply table_after_schedule_marked; [|exact Hm].
      apply Hs. now left.
Qed.

Lemma execute_all_marks tza w now key schedules schedule table :
  In schedule schedules ->
  update_error w (id schedule) = None ->
  (forall s, In s schedules -> id s = id schedule ->
             schedule_type s <> "recurring") ->
  marked now (id schedule)
         (snd (fst (execute_all tza w now key schedules table))).
Proof.
  revert table. induction schedules as [|s r IH]; intros table Hin Hu Hs.
  - contradiction.
  - simpl. rewrite execute_schedule_eq.
    pose proof (execute_all_marked tza w now key r (id schedule)
                  (table_after_schedule tza w now s table)) as Hkeep.
    specialize (IH (table_after_schedule tza w now s table)).
    destruct (execute_all tza w now key r _) as [[rs t2] p2]. simpl in *.
    destruct Hin as [-> | Hin].
    + apply Hkeep; [intros s' Hs'; apply Hs; now right|].
      apply table_after_schedule_marks; [exact Hu|].
      apply Hs; [now left | reflexivity].
    + apply IH; auto.
Qed.

(** C1 (amended). The handler has no step that claims a schedule: the only
    write is the update that ends the schedule's pipeline, made by id
    whatever [last_executed_at] the row holds.  Runs that follow one another
    do not both execute a schedule that is not recurring: once the update of
    a run has succeeded, every row of that id is marked with the time of the
    run and no later query returns it. *)
Theorem runs_in_sequence tza w env key now req table schedule :
  admitted env req ->
  configured env key ->
  select_error w = None ->
  In schedule (select_due now table) ->
  update_error w (id schedule) = None ->
  (forall s, In s (select_due now table) -> id s = id schedule ->
             schedule_type s <> "recurring") ->
  let table' := table_after (handler tza w env now req table) in
  (forall u row, In row table -> id row = id schedule ->
                 In (apply_update u row) (update_rows u (id schedule) table)) /\
  (forall row, In row table' -> id row = id schedule ->
               last_executed_at row = Some now) /\
  (forall now' row, In row (select_due now' table') -> id row <> id schedule).
Proof.
  intros Ha Hc Hs Hin Hu Hone table'. subst table'.
  destruct (run_reports_schedule tza w env key now req table schedule
              Ha Hc Hs Hin) as (_ & _ & _ & _ & _ & Ht).
  rewrite Ht.
  pose proof (execute_all_marks tza w now key (select_due now table) schedule
                table Hin Hu Hone) as Hm.
  split; [intros u row; now apply update_rows_unconditional|].
  split; [exact Hm|].
  intros now' row Hsel Hid.
  pose proof (executed_not_due _ _ _ Hsel) as Hnull.
  apply select_due_In in Hsel. destruct Hsel as [Hrow _].
  rewrite (Hm row Hrow Hid) in Hnull. discriminate.
Qed.

Lemma runs_in_sequence_witness :
  let s := Sample.one_shot "a" Sample.noon in
  let r1 := handler 0 Sample.calm Sample.env Sample.noon
              Sample.post_with_key [s] in
  select_due (Sample.noon + 60000) (table_after r1) = [].
Proof.
  intros s r1.
  destruct (runs_in_sequence 0 Sample.calm Sample.env "mdm-key" Sample.noon
              Sample.post_with_key [s] s) as (_ & _ & H).
  - split; [left; reflexivity | right; left; reflexivity].
  - repeat split; discriminate.
  - reflexivity.
  - vm_compute. left. reflexivity.
  - reflexivity.
  - intros s' Hs' _. vm_compute in Hs'. destruct Hs' as [<- | []].
    discriminate.
  - fold r1 in H.
    destruct (select_due (Sample.noon + 60000) (table_after r1))
      as [|row rest] eqn:E; [reflexivity|].
    exfalso.
    assert (Hsel : In row (select_due (Sample.noon + 60000) (table_after r1)))
      by (rewrite E; now left).
    apply (H (Sample.noon + 60000) row Hsel).
    apply select_due_In in Hsel. destruct Hsel as [Hrow _].
    vm_compute in Hrow. destruct Hrow as [<- | []]. reflexivity.
Defined.

(** C1 (as stated). Two runs, one minute apart, over a table with one due
    schedule: run A queries, run B queries, then each executes the
    schedule.  Both report it with [success: true] and both push the
    profile to the two devices; the update of B is made on a row that A had
    already marked, and overwrites the mark. *)
Lemma overlapping_runs_both_execute :
  let s := Sample.one_shot "a" Sample.noon in
  let go := interleave 0 Sample.calm Sample.noon (Sample.noon + 60000)
              "mdm-key" in
  let mid := go [RunA; RunB; RunA] (boot [s]) in
  let fin := go [RunA; RunB; RunA; RunB; RunA; RunB] (boot [s]) in
  map last_executed_at (shared mid) = [Some Sample.noon] /\
  executed_by (runA fin) "a" = true /\
  executed_by (runB fin) "a" = true /\
  map pushed_device (log (runA fin)) = [11; 12] /\
  map pushed_device (log (runB fin)) = [11; 12] /\
  map last_executed_at (shared fin) = [Some (Sample.noon + 60000)].
Proof. vm_compute. repeat split. Qed.

(** * Further properties of the handler and its helpers *)

(** ** Answers and effects *)

Lemma same_key_true a b : same_key a b = true <-> a = b.
Proof.
  destruct a as [x|], b as [y|]; simpl; try (split; congruence).
  rewrite String.eqb_eq. split; congruence.
Qed.

Lemma run_schedules_quiet tza w env now table :
  let r := run_schedules tza w env now table in
  (status (response r) = 200 \/ status (response r) = 500) /\
  (is_report (response r) = false -> table_after r = table /\ pushes r = []).
Proof.
  unfold run_schedules.
  destruct (negb (truthy_str (SUPABASE_URL env))
            || negb (truthy_str (SUPABASE_SERVICE_ROLE_KEY env)))%bool;
    [simpl; auto|].
  destruct (if truthy_str (SIMPLEMDM_API_KEY env) then SIMPLEMDM_API_KEY env
            else VITE_SIMPLEMDM_API_KEY env) as [key|]; [|simpl; auto].
  destruct (String.eqb key EmptyString); [simpl; auto|].
  destruct (select_error w); [simpl; auto|].
  destruct (select_due now table) as [|s0 rest]; [simpl; auto|].
  destruct (execute_all tza w now key (s0 :: rest) table) as [[rs t'] lg].
  simpl. split; [auto | discriminate].
Qed.

(** X1. The handler answers 200, 401, 405 or 500, and it writes the table and
    pushes profiles only in a run that it answers with a report: with any
    other answer the table is as it was and no push was made. *)
Theorem effects_only_with_report tza w env now req table :
  let r := handler tza w env now req table in
  (status (response r) = 200 \/ status (response r) = 401 \/
   status (response r) = 405 \/ status (response r) = 500) /\
  (is_report (response r) = false -> table_after r = table /\ pushes r = []).
Proof.
  unfold handler.
  destruct (negb (String.eqb (method req) "POST")
            && negb (String.eqb (method req) "GET"))%bool; [simpl; auto|].
  destruct (truthy_str (SCHEDULE_EXECUTOR_API_KEY env)
            && negb (same_key (x_api_key req) (SCHEDULE_EXECUTOR_API_KEY env))
            && negb (isVercelCron req))%bool; [simpl; auto|].
  destruct (run_schedules_quiet tza w env now table) as [[H|H] Hq];
    split; auto.
Qed.

Lemma run_schedules_ok_iff tza w env now table :
  status (response (run_schedules tza w env now table)) = 200 <->
  (exists key, configured env key) /\ select_error w = None.
Proof.
  unfold run_schedules, configured.
  destruct (truthy_str (SUPABASE_URL env)) eqn:Hu;
    [|simpl; split; [discriminate | intros [(k & H & _) _]; discriminate]].
  destruct (truthy_str (SUPABASE_SERVICE_ROLE_KEY env)) eqn:Hs;
    [|simpl; split;
      [discriminate | intros [(k & _ & H & _) _]; discriminate]].
  simpl.
  destruct (if truthy_str (SIMPLEMDM_API_KEY env) then SIMPLEMDM_API_KEY env
            else VITE_SIMPLEMDM_API_KEY env) as [key|] eqn:Hk;
    [|simpl; split;
      [discriminate | intros [(k & _ & _ & H & _) _]; discriminate]].
  destruct (String.eqb_spec key EmptyString) as [He|He].
  - simpl. split; [discriminate|].
    intros [(k & _ & _ & H & Hne) _]. congruence.
  - destruct (select_error w) as [e|].
    + simpl. split; [discriminate | intros [_ H]; discriminate].
    + destruct (select_due now table) as [|s0 rest].
      * simpl. split; auto. intros _. split; [|reflexivity].
        exists key. auto.
      * destruct (execute_all tza w now key (s0 :: rest) table)
          as [[rs t'] lg].
        simpl. split; auto. intros _. split; [|reflexivity].
        exists key. auto.
Qed.

Lemma method_check_true req :
  (negb (String.eqb (method req) "POST")
   && negb (String.eqb (method req) "GET"))%bool = true <->
  ~ allowed_method req.
Proof.
  unfold allowed_method.
  rewrite andb_true_iff, !negb_true_iff, !String.eqb_neq. tauto.
Qed.

(** X2. What each status requires.  The handler answers 405 exactly when
    the method is neither POST nor GET, and 401 exactly when the method is
    allowed, an API key is expected, the request does not present it and
    the request is not Vercel Cron's.  It answers 200 only if the request
    passed both checks, the environment has both Supabase settings and a
    SimpleMDM key, and the query for due schedules succeeded. *)
Theorem status_conditions tza w env now req table :
  let st := status (response (handler tza w env now req table)) in
  (st = 405 <-> ~ allowed_method req) /\
  (st = 401 <->
   allowed_method req /\
   truthy_str (SCHEDULE_EXECUTOR_API_KEY env) = true /\
   x_api_key req <> SCHEDULE_EXECUTOR_API_KEY env /\
   isVercelCron req = false) /\
  (st = 200 ->
   admitted env req /\ (exists key, configured env key) /\
   select_error w = None).
Proof.
  intros st. subst st. unfold handler.
  destruct (negb (String.eqb (method req) "POST")
            && negb (String.eqb (method req) "GET"))%bool eqn:Hm.
  - apply method_check_true in Hm. simpl.
    split; [tauto|]. split; [|discriminate].
    split; [discriminate | tauto].
  - assert (Ha : allowed_method req).
    { unfold allowed_method. apply andb_false_iff in Hm.
      destruct Hm as [Hm|Hm]; apply negb_false_iff, String.eqb_eq in Hm;
        auto. }
    destruct (truthy_str (SCHEDULE_EXECUTOR_API_KEY env)
              && negb (same_key (x_api_key req)
                                (SCHEDULE_EXECUTOR_API_KEY env))
              && negb (isVercelCron req))%bool eqn:Hk.
    + apply andb_true_iff in Hk. destruct Hk as [Hk Hc].
      apply andb_true_iff in Hk. destruct Hk as [Hk Hs].
      apply negb_true_iff in Hc, Hs. apply same_key_false in Hs.
      simpl. split; [split; [discriminate | tauto]|].
      split; [tauto | discriminate].
    + assert (Hadm : admitted env req).
      { split; [exact Ha|].
        apply andb_false_iff in Hk. destruct Hk as [Hk|Hk].
        - apply andb_false_iff in Hk. destruct Hk as [Hk|Hk]; [now left|].
          right; left. now apply same_key_true, negb_false_iff.
        - right; right. now apply negb_false_iff. }
      destruct (run_schedules_quiet tza w env now table) as [Hst _].
      split; [split; [intros E; rewrite E in Hst; lia | tauto]|].
      split.
      * split; [intros E; rewrite E in Hst; lia|].
        intros (_ & Ht & Hne & Hc). exfalso.
        apply andb_false_iff in Hk. destruct Hk as [Hk|Hk].
        -- apply andb_false_iff in Hk. destruct Hk as [Hk|Hk]; [congruence|].
           apply negb_false_iff, same_key_true in Hk. contradiction.
        -- apply negb_false_iff in Hk. congruence.
      * intros E. apply run_schedules_ok_iff in E. tauto.
Qed.

(** ** The table after a run *)

Lemma table_after_schedule_map tza w now schedule table :
  table_after_schedule tza w now schedule table =
  map (row_after_schedule tza w now schedule) table.
Proof.
  unfold table_after_schedule, row_after_schedule, update_rows.
  destruct (update_error w (id schedule)); [|reflexivity].
  now rewrite map_id.
Qed.

Lemma execute_all_table tza w now key schedules table :
  snd (fst (execute_all tza w now key schedules table)) =
  map (row_after_run tza w now schedules) table.
Proof.
  revert table. induction schedules as [|s r IH]; intros table.
  - simpl. now rewrite map_id.
  - simpl. rewrite execute_schedule_eq.
    specialize (IH (table_after_schedule tza w now s table)).
    destruct (execute_all tza w now key r _) as [[rs t2] p2]. simpl in *.
    rewrite IH, table_after_schedule_map, map_map. reflexivity.
Qed.

Lemma execute_all_pushes tza w now key schedules table :
  snd (execute_all tza w now key schedules table) =
  flat_map (pushes_of w key) schedules.
Proof.
  revert table. induction schedules as [|s r IH]; intros table.
  - reflexivity.
  - simpl. rewrite execute_schedule_eq.
    specialize (IH (table_after_schedule tza w now s table)).
    destruct (execute_all tza w now key r _) as [[rs t2] p2]. simpl in *.
    now rewrite IH.
Qed.

Lemma handler_cases tza w env now req table :
  (exists st e,
      handler tza w env now req table = reply st (ErrorBody e None) table /\
      (st = 401 \/ st = 405)) \/
  (admitted env req /\
   handler tza w env now req table = run_schedules tza w env now table).
Proof.
  unfold handler.
  destruct (negb (String.eqb (method req) "POST")
            && negb (String.eqb (method req) "GET"))%bool eqn:Hm;
    [left; eauto|].
  destruct (truthy_str (SCHEDULE_EXECUTOR_API_KEY env)
            && negb (same_key (x_api_key req)
                              (SCHEDULE_EXECUTOR_API_KEY env))
            && negb (isVercelCron req))%bool eqn:Hk;
    [left; eauto|].
  right. split; [|reflexivity]. split.
  - unfold allowed_method.
    apply andb_false_iff in Hm.
    destruct Hm as [Hm|Hm]; apply negb_false_iff, String.eqb_eq in Hm; auto.
  - apply andb_false_iff in Hk. destruct Hk as [Hk|Hk].
    + apply andb_false_iff in Hk. destruct Hk as [Hk|Hk]; [now left|].
      right; left. now apply same_key_true, negb_false_iff.
    + right; right. now apply negb_false_iff.
Qed.

Lemma run_schedules_cases tza w env now table :
  (exists e d,
      run_schedules tza w env now table = reply 500 (ErrorBody e d) table) \/
  (exists key,
      configured env key /\ select_error w = None /\
      select_due now table = [] /\
      run_schedules tza w env now table =
        reply 200 (MessageBody "No schedules to execute") table) \/
  (exists key,
      configured env key /\ select_error w = None /\
      select_due now table <> []).
Proof.
  unfold run_schedules, configured.
  destruct (truthy_str (SUPABASE_URL env)) eqn:Hu; [|left; simpl; eauto].
  destruct (truthy_str (SUPABASE_SERVICE_ROLE_KEY env)) eqn:Hs;
    [|left; simpl; eauto].
  simpl.
  destruct (if truthy_str (SIMPLEMDM_API_KEY env) then SIMPLEMDM_API_KEY env
            else VITE_SIMPLEMDM_API_KEY env) as [key|] eqn:Hk;
    [|left; eauto].
  destruct (String.eqb_spec key EmptyString) as [He|He]; [left; eauto|].
  destruct (select_error w) as [e|]; [left; eauto|].
  destruct (select_due now table) as [|s0 rest].
  - right; left. exists key. auto.
  - right; right. exists key. repeat split; auto. discriminate.
Qed.

(** The table and the pushes of the handler: those of a run over the due
    schedules, or nothing. *)
Lemma handler_effects tza w env now req table :
  let r := handler tza w env now req table in
  (table_after r = table /\ pushes r = [] /\ is_report (response r) = false)
  \/
  (exists key,
      configured env key /\ admitted env req /\ select_error w = None /\
      select_due now table <> [] /\
      is_report (response r) = true /\
      table_after r =
        map (row_after_run tza w now (select_due now table)) table /\
      pushes r = flat_map (pushes_of w key) (select_due now table)).
Proof.
  intros r. subst r.
  destruct (handler_cases tza w env now req table)
    as [(st & b0 & -> & _) | [Ha ->]]; [left; simpl; auto|].
  destruct (run_schedules_cases tza w env now table)
    as [(e & d & ->) | [(key & _ & _ & _ & ->) | (key & Hc & Hs & Hd)]];
    [left; simpl; auto | left; simpl; auto |].
  right. exists key.
  rewrite (run_schedules_report tza w env key now table Hc Hs Hd).
  pose proof (execute_all_table tza w now key (select_due now table) table)
    as Ht.
  pose proof (execute_all_pushes tza w now key (select_due now table) table)
    as Hp.
  destruct (execute_all tza w now key (select_due now table) table)
    as [[rs t'] lg]. simpl in *.
  split; [exact Hc|]. split; [exact Ha|]. split; [exact Hs|].
  split; [exact Hd|]. split; [reflexivity|]. split; assumption.
Qed.

Lemma run_schedules_nothing tza w env key now table :
  configured env key ->
  select_error w = None ->
  select_due now table = [] ->
  run_schedules tza w env now table =
  reply 200 (MessageBody "No schedules to execute") table.
Proof.
  intros (Hu & Hs & Hk & Hne) Hsel Hdue. unfold run_schedules.
  rewrite Hu, Hs, Hk, Hsel, Hdue. simpl.
  apply String.eqb_neq in Hne. now rewrite Hne.
Qed.

Lemma same_fixed_columns_refl row : same_fixed_columns row row.
Proof. unfold same_fixed_columns. tauto. Qed.

Lemma row_after_schedule_fixed tza w now schedule row :
  same_fixed_columns row (row_after_schedule tza w now schedule row).
Proof.
  unfold row_after_schedule.
  destruct (update_error w (id schedule)); [apply same_fixed_columns_refl|].
  destruct (String.eqb (id row) (id schedule));
    [|apply same_fixed_columns_refl].
  unfold same_fixed_columns. simpl. tauto.
Qed.

Lemma row_after_run_fixed tza w now schedules row :
  same_fixed_columns row (row_after_run tza w now schedules row).
Proof.
  unfold row_after_run. revert row.
  induction schedules as [|s r IH]; intros row; simpl.
  - apply same_fixed_columns_refl.
  - pose proof (row_after_schedule_fixed tza w now s row) as H1.
    pose proof (IH (row_after_schedule tza w now s row)) as H2.
    unfold same_fixed_columns in *.
    repeat split; etransitivity; try apply H2; apply H1.
Qed.

Lemma row_after_schedule_other tza w now schedule row :
  id row <> id schedule \/ update_error w (id row) <> None ->
  row_after_schedule tza w now schedule row = row.
Proof.
  intros H. unfold row_after_schedule.
  destruct (update_error w (id schedule)) eqn:Hu; [reflexivity|].
  destruct (String.eqb_spec (id row) (id schedule)) as [E|E]; [|reflexivity].
  destruct H as [H|H]; [contradiction|].
  rewrite E in H. contradiction.
Qed.

Lemma row_after_run_other tza w now schedules row :
  ~ In (id row) (map id schedules) \/ update_error w (id row) <> None ->
  row_after_run tza w now schedules row = row.
Proof.
  unfold row_after_run. induction schedules as [|s r IH]; intros H; simpl.
  - reflexivity.
  - rewrite row_after_schedule_other.
    + apply IH. destruct H as [H|H]; [left | now right].
      intros Hin. apply H. now right.
    + destruct H as [H|H]; [left | now right].
      intros E. apply H. left. now rewrite E.
Qed.

Lemma Forall2_map_self {A : Type} (R : A -> A -> Prop) (f : A -> A) l :
  (forall x, R x (f x)) -> Forall2 R l (map f l).
Proof. intros H. induction l; simpl; constructor; auto. Qed.

(** X3. A run never adds, removes or reorders rows, and writes no column
    other than [start_time] and [last_executed_at]: row by row, the table
    after the handler has the id, the flag, the type, the recurrence, the
    filter and the profile that it had before. *)
Theorem fixed_columns_kept tza w env now req table :
  Forall2 same_fixed_columns table
          (table_after (handler tza w env now req table)).
Proof.
  destruct (handler_effects tza w env now req table)
    as [(E & _) | (key & _ & _ & _ & _ & _ & E & _)]; rewrite E.
  - rewrite <- (map_id table) at 2.
    apply Forall2_map_self, same_fixed_columns_refl.
  - apply Forall2_map_self, row_after_run_fixed.
Qed.

(** X4. A row whose id is not the id of a due schedule, or whose update the
    table refuses, is at its place in the table after the handler exactly
    as it was. *)
Theorem other_rows_untouched tza w env now req table i row :
  nth_error table i = Some row ->
  ~ In (id row) (map id (select_due now table)) \/
  update_error w (id row) <> None ->
  nth_error (table_after (handler tza w env now req table)) i = Some row.
Proof.
  intros Hi Hrow.
  destruct (handler_effects tza w env now req table)
    as [(E & _) | (key & _ & _ & _ & _ & _ & E & _)]; rewrite E;
    [exact Hi|].
  rewrite nth_error_map, Hi. simpl.
  now rewrite row_after_run_other.
Qed.

Lemma other_rows_untouched_witness :
  let off := {| id := "off"; enabled := false; schedule_type := "one_shot";
                start_time := Sample.noon; recurrence_pattern := None;
                recurrence_days := None; device_filter := None;
                profile_id := "wifi"; last_executed_at := None |} in
  nth_error (table_after (handler 0 Sample.calm Sample.env Sample.noon
                            Sample.cron
                            [Sample.one_shot "a" Sample.noon; off])) 1
  = Some off.
Proof.
  intros off.
  apply (other_rows_untouched 0 Sample.calm Sample.env Sample.noon
           Sample.cron [Sample.one_shot "a" Sample.noon; off] 1 off).
  - reflexivity.
  - left. vm_compute. intros [H|[]]. discriminate.
Defined.

(** ** The pushes of a run *)

Lemma pushes_of_pairs w key schedule :
  map (fun c => (pushed_profile c, pushed_device c)) (pushes_of w key schedule)
  = map (fun device => (profile_id schedule, device_id device))
        (targetDevices_of w key schedule).
Proof.
  unfold pushes_of, push_all. rewrite map_map. reflexivity.
Qed.

Lemma flat_map_pushes_pairs w key schedules :
  map (fun c => (pushed_profile c, pushed_device c))
      (flat_map (pushes_of w key) schedules)
  = planned_pushes w key schedules.
Proof.
  unfold planned_pushes. induction schedules as [|s r IH]; simpl.
  - reflexivity.
  - now rewrite map_app, pushes_of_pairs, IH.
Qed.

Lemma run_pushes tza w env key now req table :
  admitted env req ->
  configured env key ->
  select_error w = None ->
  pushes (handler tza w env now req table)
  = flat_map (pushes_of w key) (select_due now table).
Proof.
  intros Ha Hc Hs. rewrite (handler_admitted _ _ _ _ _ _ Ha).
  destruct (select_due now table) as [|s0 rest] eqn:Hd.
  - now rewrite (run_schedules_nothing _ _ _ _ _ _ Hc Hs Hd).
  - rewrite <- Hd.
    rewrite (run_schedules_report tza w env key now table Hc Hs)
      by (rewrite Hd; discriminate).
    pose proof (execute_all_pushes tza w now key (select_due now table) table)
      as Hp.
    destruct (execute_all tza w now key (select_due now table) table)
      as [[rs t'] lg]. exact Hp.
Qed.

(** X5. The pushes of a run are, taken as a collection without order, the
    profile of each due schedule to each of its target devices, once; and
    they are made whatever the table answers to the updates: a refused
    update neither prevents nor undoes them. *)
Theorem pushes_of_run tza w env key now req table :
  admitted env req ->
  configured env key ->
  select_error w = None ->
  Permutation
    (map (fun c => (pushed_profile c, pushed_device c))
         (pushes (handler tza w env now req table)))
    (planned_pushes w key (select_due now table)) /\
  forall u,
    Permutation
      (pushes (handler tza (with_update_error w u) env now req table))
      (pushes (handler tza w env now req table)).
Proof.
  intros Ha Hc Hs. split.
  - rewrite (run_pushes _ _ _ _ _ _ _ Ha Hc Hs).
    rewrite flat_map_pushes_pairs. apply Permutation_refl.
  - intros u.
    rewrite (run_pushes tza (with_update_error w u) env key now req table
               Ha Hc Hs).
    rewrite (run_pushes _ _ _ _ _ _ _ Ha Hc Hs). apply Permutation_refl.
Qed.

Lemma pushes_of_run_witness :
  let table := [Sample.one_shot "a" Sample.noon;
                Sample.broken_filter "b" (Sample.noon - 1000)] in
  Permutation
    (map (fun c => (pushed_profile c, pushed_device c))
         (pushes (handler 0 Sample.readonly Sample.env Sample.noon Sample.cron
                    table)))
    [("wifi", 11); ("wifi", 12)].
Proof.
  intros table.
  destruct (pushes_of_run 0 Sample.readonly Sample.env "mdm-key" Sample.noon
              Sample.cron table) as [H _].
  - split; [right; reflexivity | right; right; reflexivity].
  - repeat split; discriminate.
  - reflexivity.
  - exact H.
Defined.

(** ** The report and the table *)

(** X6. What a schedule's element of the report says of the table after the
    schedule's pipeline.  With [success: true] and a [nextExecution], every
    row of the schedule's id starts at that time and is not marked
    executed; with [success: true] and no [nextExecution], every such row
    is marked executed at the time of the run; with [success: false] the
    table is as it was. *)
Theorem report_agrees_with_table tza w now key schedule table :
  let '(o, table', _) := execute_schedule tza w now key schedule table in
  (success o = false -> table' = table) /\
  (success o = true ->
   forall row, In row table' -> id row = id schedule ->
     match nextExecution o with
     | Some next => start_time row = next /\ last_executed_at row = None
     | None => last_executed_at row = Some now
     end).
Proof.
  rewrite execute_schedule_eq. unfold table_after_schedule.
  destruct (update_error w (id schedule)) as [e|] eqn:Hu.
  - rewrite (outcome_of_update_failed _ _ _ _ _ _ Hu). simpl.
    split; [reflexivity | discriminate].
  - rewrite (outcome_of_update_ok _ _ _ _ _ Hu). simpl.
    split; [discriminate|]. intros _ row Hin Hid.
    destruct (update_rows_row _ _ _ _ Hin Hid) as [Hl Hst].
    destruct (updateData_of_cases tza now schedule)
      as [(p & n & _ & _ & _ & _ & E) | [_ E]];
      rewrite E in *; simpl in *.
    + split; [now apply Hst | exact Hl].
    + exact Hl.
Qed.

(** ** Strings *)

Lemma prefix_iff n s :
  String.prefix n s = true <-> exists b, s = n ++ b.
Proof.
  revert s. induction n as [|c n IH]; intros s.
  - split; [intros _; now exists s | intros _; now destruct s].
  - destruct s as [|c' s]; simpl.
    + split; [discriminate | intros (b & H); discriminate].
    + destruct (ascii_dec c c') as [->|Hc].
      * rewrite IH. split; intros (b & H); exists b; congruence.
      * split; [discriminate | intros (b & H); congruence].
Qed.

Lemma includes_cons c r n :
  includes (String c r) n =
  if String.prefix n (String c r) then true else includes r n.
Proof. reflexivity. Qed.

(** [includes] is the substring test. *)
Lemma includes_iff s n :
  includes s n = true <-> exists a b, s = a ++ n ++ b.
Proof.
  split.
  - induction s as [|c r IH].
    + destruct n; simpl; [|discriminate].
      intros _. now exists EmptyString, EmptyString.
    + rewrite includes_cons.
      destruct (String.prefix n (String c r)) eqn:Hp.
      * intros _. apply prefix_iff in Hp. destruct Hp as (b & Hb).
        now exists EmptyString, b.
      * intros H. destruct (IH H) as (a & b & ->).
        now exists (String c a), b.
  - intros (a & b & ->). induction a as [|c a IH].
    + assert (Hp : String.prefix n (n ++ b) = true)
        by (apply prefix_iff; now exists b).
      change (EmptyString ++ n ++ b) with (n ++ b).
      destruct (n ++ b) as [|c r] eqn:E.
      * destruct n; [reflexivity | discriminate].
      * rewrite includes_cons. now rewrite Hp.
    + change (String c a ++ n ++ b) with (String c (a ++ n ++ b)).
      rewrite includes_cons, IH.
      now destruct (String.prefix n (String c (a ++ n ++ b))).
Qed.

Lemma lower_ascii_idem c : lower_ascii (lower_ascii c) = lower_ascii c.
Proof.
  destruct c as [[] [] [] [] [] [] [] []]; reflexivity.
Qed.

Lemma toLowerCase_idem s : toLowerCase (toLowerCase s) = toLowerCase s.
Proof.
  induction s as [|c r IH]; simpl; [reflexivity|].
  now rewrite lower_ascii_idem, IH.
Qed.

(** ** The devices of a schedule *)

Lemma sublist_refl {A : Type} (l : list A) : sublist l l.
Proof.
  induction l; [apply sublist_nil | now apply sublist_keep].
Qed.

Lemma sublist_nil_l {A : Type} (l : list A) : sublist [] l.
Proof. induction l; constructor; auto. Qed.

Lemma filter_exc_sublist {A : Type} (f : A -> Exc bool) l l' :
  filter_exc f l = Ok l' -> sublist l' l.
Proof.
  revert l'. induction l as [|x r IH]; simpl; intros l'.
  - intros [= <-]. constructor.
  - destruct (f x) as [b|m]; [|discriminate].
    destruct (filter_exc f r) as [r'|m]; [|discriminate].
    intros [= <-].
    destruct b; [apply sublist_keep | apply sublist_skip]; auto.
Qed.

Lemma filter_exc_named needle devices :
  Forall (fun device => device_name device <> None) devices ->
  filter_exc (name_matches (JString needle)) devices
  = Ok (named_like needle devices).
Proof.
  induction 1 as [|d r Hd _ IH]; simpl; [reflexivity|].
  unfold name_matches at 1.
  destruct (device_name d) as [name|]; [|congruence].
  now rewrite IH.
Qed.

Lemma filter_exc_unnamed v devices :
  Exists (fun device => device_name device = None) devices ->
  exists m, filter_exc (name_matches v) devices = Throw m.
Proof.
  induction 1 as [d r Hd | d r _ (m & IH)]; simpl.
  - unfold name_matches at 1. rewrite Hd. eauto.
  - destruct (name_matches v d) as [b|m']; [|eauto].
    rewrite IH. eauto.
Qed.

Lemma filter_exc_not_string v devices :
  (forall needle, v <> JString needle) ->
  filter_exc (name_matches v) devices = Ok [] \/
  exists m, filter_exc (name_matches v) devices = Throw m.
Proof.
  intros Hv. destruct devices as [|d r]; [now left|].
  right. simpl. unfold name_matches at 1.
  destruct (device_name d); [|eauto].
  destruct v as [| | |needle| |]; eauto.
  exfalso. now apply (Hv needle).
Qed.

(** The listing that the directory gives for a schedule. *)
Lemma fetchFilteredDevices_sublist w filter key sid devices :
  fetchFilteredDevices w filter key sid = Ok devices ->
  sublist devices
          (match directory w key sid with
           | DirectoryBody (Some listed) => listed
           | _ => []
           end).
Proof.
  unfold fetchFilteredDevices, fetchAllDevices.
  destruct (directory w key sid) as [|[listed|]].
  - destruct (get_prop filter "groupIds"); [|discriminate].
    destruct (get_prop filter "nameContains") as [n|]; [|discriminate].
    destruct (truthy n); [|intros [= <-]; constructor].
    destruct n; [|intros [= <-]; constructor].
    simpl. intros [= <-]. constructor.
  - destruct (get_prop filter "groupIds"); [|discriminate].
    destruct (get_prop filter "nameContains") as [n|]; [|discriminate].
    destruct (truthy n); [|intros [= <-]; apply sublist_refl].
    destruct n; [|intros [= <-]; apply sublist_refl].
    apply filter_exc_sublist.
  - intros [= <-]. constructor.
Qed.

(** X9. Whatever the filter, the target devices of a schedule are devices
    that the directory listed for it, in the order of the listing: a filter
    leaves devices out and never adds one, and without a listing there is
    no target. *)
Theorem targets_from_directory w key schedule :
  sublist (targetDevices_of w key schedule)
          (match directory w key (id schedule) with
           | DirectoryBody (Some listed) => listed
           | _ => []
           end).
Proof.
  unfold targetDevices_of.
  destruct (device_filter schedule) as [[| |filter]|].
  - unfold fetchAllDevices.
    destruct (directory w key (id schedule)) as [|[listed|]];
      try constructor. apply sublist_refl.
  - apply sublist_nil_l.
  - destruct (fetchFilteredDevices w filter key (id schedule)) as [ds|m] eqn:E.
    + now apply fetchFilteredDevices_sublist in E.
    + apply sublist_nil_l.
  - unfold fetchAllDevices.
    destruct (directory w key (id schedule)) as [|[listed|]];
      try constructor. apply sublist_refl.
Qed.

Lemma named_like_In needle devices d :
  In d (named_like needle devices) <->
  In d devices /\
  exists name pre post,
    device_name d = Some name /\
    toLowerCase name = pre ++ toLowerCase needle ++ post.
Proof.
  unfold named_like. rewrite filter_In. split.
  - intros [Hin Hm]. split; [exact Hin|].
    destruct (device_name d) as [name|]; [|discriminate].
    apply includes_iff in Hm. destruct Hm as (pre & post & E).
    now exists name, pre, post.
  - intros [Hin (name & pre & post & Hn & E)]. split; [exact Hin|].
    rewrite Hn. apply includes_iff. now exists pre, post.
Qed.

Lemma named_devices listed :
  Forall (fun device =>
            exists name, device_name device = Some name /\
                         ascii_only name = true) listed ->
  Forall (fun device => device_name device <> None) listed.
Proof.
  intros H. eapply Forall_impl; [|exact H].
  intros d (name & -> & _). discriminate.
Qed.

(** X10. The name filter on ASCII text.  With a filter object whose
    [nameContains] is a non-empty string of ASCII characters, over a
    listing in which every device has a name of ASCII characters, the
    target devices are the listed devices whose name contains the string,
    the case of the letters A to Z apart: a device is a target exactly when
    it is listed and its name in lower case has the string in lower case
    as a substring. *)
Theorem name_filter_selects w key schedule fields needle listed :
  device_filter schedule = Some (Parses (JObject fields)) ->
  lookup_field "nameContains" fields = Some (JString needle) ->
  needle <> EmptyString ->
  ascii_only needle = true ->
  directory w key (id schedule) = DirectoryBody (Some listed) ->
  Forall (fun device =>
            exists name, device_name device = Some name /\
                         ascii_only name = true) listed ->
  targetDevices_of w key schedule = named_like needle listed /\
  forall d,
    In d (targetDevices_of w key schedule) <->
    In d listed /\
    exists name pre post,
      device_name d = Some name /\
      toLowerCase name = pre ++ toLowerCase needle ++ post.
Proof.
  intros Hf Hl Hne _ Hd Hnames. apply named_devices in Hnames.
  assert (E : targetDevices_of w key schedule = named_like needle listed).
  { unfold targetDevices_of, fetchFilteredDevices, fetchAllDevices.
    rewrite Hf, Hd. simpl. rewrite Hl. simpl.
    apply String.eqb_neq in Hne. rewrite Hne. simpl.
    now rewrite filter_exc_named. }
  split; [exact E|]. intros d. rewrite E. apply named_like_In.
Qed.

Lemma name_filter_selects_witness :
  targetDevices_of Sample.calm "mdm-key"
    (Sample.filtered "f" (JObject [("nameContains", JString "LAB")])
       Sample.noon)
  = [Sample.phone].
Proof.
  destruct (name_filter_selects Sample.calm "mdm-key"
              (Sample.filtered "f" (JObject [("nameContains", JString "LAB")])
                 Sample.noon)
              [("nameContains", JString "LAB")] "LAB"
              [Sample.phone; Sample.tablet]) as [H _].
  - reflexivity.
  - reflexivity.
  - discriminate.
  - reflexivity.
  - reflexivity.
  - repeat constructor; eexists; split; reflexivity.
  - rewrite H. reflexivity.
Defined.

(** X11. A filter that parses but gives no name to look for applies to every
    device.  When the parsed filter is not [null] and is not an object with
    a truthy [nameContains] -- a number, a string, an array, an object with
    only [groupIds] -- the target devices are all the devices that the
    directory lists. *)
Theorem unusable_filter_selects_all w key schedule filter :
  device_filter schedule = Some (Parses filter) ->
  filter <> JNull ->
  (forall fields, filter = JObject fields ->
                  truthy (lookup_field "nameContains" fields) = false) ->
  targetDevices_of w key schedule =
  match directory w key (id schedule) with
  | DirectoryBody (Some listed) => listed
  | _ => []
  end.
Proof.
  intros Hf Hnull Hobj.
  unfold targetDevices_of, fetchFilteredDevices, fetchAllDevices. rewrite Hf.
  destruct (directory w key (id schedule)) as [|[listed|]];
    [|  |reflexivity];
    (destruct filter as [| | | | |fields]; [congruence|simpl; reflexivity..|];
     simpl; now rewrite (Hobj fields eq_refl)).
Qed.

Lemma unusable_filter_selects_all_witness :
  targetDevices_of Sample.calm "mdm-key"
    (Sample.filtered "g" (JObject [("groupIds", JArray [JString "7"])])
       Sample.noon)
  = [Sample.phone; Sample.tablet].
Proof.
  rewrite (unusable_filter_selects_all Sample.calm "mdm-key"
             (Sample.filtered "g" (JObject [("groupIds", JArray [JString "7"])])
                Sample.noon)
             (JObject [("groupIds", JArray [JString "7"])])).
  - reflexivity.
  - reflexivity.
  - discriminate.
  - intros fields [= <-]. reflexivity.
Defined.

(** X12. A filter whose evaluation throws applies to no device.  The target
    devices are none when the parsed filter is [null], when its
    [nameContains] is truthy and not a string, and when it is a non-empty
    string but one listed device has no name. *)
Theorem failing_filter_selects_nobody w key schedule filter :
  device_filter schedule = Some (Parses filter) ->
  filter = JNull \/
  (exists fields v,
      filter = JObject fields /\
      lookup_field "nameContains" fields = Some v /\
      truthy (Some v) = true /\
      ((forall needle, v <> JString needle) \/
       exists listed,
         directory w key (id schedule) = DirectoryBody (Some listed) /\
         Exists (fun device => device_name device = None) listed)) ->
  targetDevices_of w key schedule = [].
Proof.
  intros Hf Hcase.
  unfold targetDevices_of, fetchFilteredDevices, fetchAllDevices. rewrite Hf.
  destruct Hcase as [-> | (fields & v & -> & Hl & Ht & Hv)].
  - destruct (directory w key (id schedule)) as [|[listed|]]; reflexivity.
  - simpl. rewrite Hl, Ht.
    destruct Hv as [Hv | (listed & Hd & Hex)].
    + destruct (directory w key (id schedule)) as [|[listed|]];
        [reflexivity| |reflexivity].
      destruct (filter_exc_not_string v listed Hv) as [-> | (m & ->)];
        reflexivity.
    + rewrite Hd.
      destruct (filter_exc_unnamed v listed Hex) as (m & ->). reflexivity.
Qed.

Lemma failing_filter_selects_nobody_witness :
  targetDevices_of Sample.calm "mdm-key"
    (Sample.filtered "n" JNull Sample.noon) = [] /\
  targetDevices_of Sample.nameless "mdm-key"
    (Sample.filtered "f" (JObject [("nameContains", JString "lab")])
       Sample.noon) = [].
Proof.
  split.
  - apply (failing_filter_selects_nobody Sample.calm "mdm-key"
             (Sample.filtered "n" JNull Sample.noon) JNull);
      [reflexivity | now left].
  - apply (failing_filter_selects_nobody Sample.nameless "mdm-key"
             (Sample.filtered "f" (JObject [("nameContains", JString "lab")])
                Sample.noon)
             (JObject [("nameContains", JString "lab")]));
      [reflexivity|].
    right. exists [("nameContains", JString "lab")], (JString "lab").
    repeat split. right.
    exists [Sample.phone; {| device_id := 13; device_name := None |}].
    split; [reflexivity|].
    apply Exists_cons_tl, Exists_cons_hd. reflexivity.
Defined.

(** ** More on the next execution time *)

(** X13. The next weekly time is the first configured weekday after the last
    time.  With a non-empty list of weekday indices 0..6, the next time is
    [k] days after the last one with [k] between 1 and 7, it falls on a
    configured weekday, and none of the days in between does. *)
Theorem weekly_first_configured_day tza t days :
  days <> [] ->
  weekdays (Some days) ->
  exists k,
    calculateNextExecutionTime tza t "weekly" (Some days)
      = Some (t + k * msPerDay) /\
    1 <= k <= 7 /\
    In (getDay tza (t + k * msPerDay)) days /\
    forall j, 1 <= j < k -> ~ In (getDay tza (t + j * msPerDay)) days.
Proof.
  intros Hne Hw. simpl in Hw. rewrite Forall_forall in Hw.
  destruct (weekly_next tza t days Hne) as (k & E & Hk).
  exists k. split; [exact E|].
  pose proof (getDay_range tza t) as Hc.
  set (cur := getDay tza t) in *.
  destruct Hk as [(x & Hx & Hlt & Hmin & ->) | (x & Hx & Hall & Hmin & ->)].
  - pose proof (Hw x Hx) as Hr.
    split; [lia|]. split.
    + rewrite getDay_plus_days. fold cur.
      replace (cur + (x - cur)) with x by lia.
      now rewrite Z.mod_small by lia.
    + intros j Hj Hin. rewrite getDay_plus_days in Hin. fold cur in Hin.
      rewrite Z.mod_small in Hin by lia.
      specialize (Hmin _ Hin). lia.
  - pose proof (Hw x Hx) as Hr. pose proof (Hall x Hx) as Hxc.
    split; [lia|]. split.
    + rewrite getDay_plus_days. fold cur.
      replace (cur + (7 - cur + x)) with (x + 1 * 7) by lia.
      now rewrite Z_mod_plus_full, Z.mod_small by lia.
    + intros j Hj Hin. rewrite getDay_plus_days in Hin. fold cur in Hin.
      destruct (Z_le_gt_dec (cur + j) 6) as [Hs|Hs].
      * rewrite Z.mod_small in Hin by lia.
        specialize (Hall _ Hin). lia.
      * replace (cur + j) with (cur + j - 7 + 1 * 7) in Hin by lia.
        rewrite Z_mod_plus_full, Z.mod_small in Hin by lia.
        specialize (Hmin _ Hin). lia.
Qed.

(** Sunday 4 February 2024 with Sunday alone configured: a week later. *)
Lemma weekly_first_configured_day_witness :
  calculateNextExecutionTime 0 (utc 2024 2 4 8 0) "weekly" (Some [0])
  = Some (utc 2024 2 11 8 0).
Proof.
  destruct (weekly_first_configured_day 0 (utc 2024 2 4 8 0) [0])
    as (k & E & Hk & Hin & _).
  - discriminate.
  - simpl. repeat constructor; lia.
  - rewrite E. f_equal.
    rewrite getDay_plus_days in Hin.
    change (getDay 0 (utc 2024 2 4 8 0)) with 0 in Hin.
    destruct Hin as [Hin | []].
    assert (k = 7) as ->.
    { rewrite Z.add_0_l in Hin. symmetry in Hin.
      apply Z.mod_divide in Hin; [|lia].
      destruct Hin as (q & ->). lia. }
    reflexivity.
Defined.

(** X14. [n] daily recurrences in a row give the time [n] days later, at the
    same time of day. *)
Theorem daily_n_times tza n t :
  daily_times tza n t = Some (t + Z.of_nat n * msPerDay) /\
  timeOfDay tza (t + Z.of_nat n * msPerDay) = timeOfDay tza t.
Proof.
  split; [|apply timeOfDay_plus_days].
  revert t. induction n as [|n IH]; intros t.
  - simpl. f_equal. lia.
  - cbn [daily_times].
    destruct (daily_next tza t None) as [-> _].
    rewrite IH. f_equal. lia.
Qed.

(** X15. A monthly recurrence from a day of the month that the following
    month has gives that day of the following month -- of January of the
    next year after December -- at the same time of day. *)
Theorem monthly_keeps_day tza t days :
  let y := getFullYear tza t + (getMonth tza t + 1) / 12 in
  let m := (getMonth tza t + 1) mod 12 in
  getDate tza t <= daysInMonth m (if DaysInYear y =? 366 then 1 else 0) ->
  exists next,
    calculateNextExecutionTime tza t "monthly" days = Some next /\
    getFullYear tza next = y /\ getMonth tza next = m /\
    getDate tza next = getDate tza t /\
    timeOfDay tza next = timeOfDay tza t.
Proof.
  intros y m Hd.
  exists (setMonth tza t (getMonth tza t + 1)). split; [reflexivity|].
  now apply setMonth_next_same_day.
Qed.

Lemma monthly_keeps_day_witness :
  calculateNextExecutionTime 0 (utc 2023 12 31 23 30) "monthly" None
  = Some (utc 2024 1 31 23 30).
Proof.
  destruct (monthly_keeps_day 0 (utc 2023 12 31 23 30) None)
    as (next & E & _).
  - vm_compute. discriminate.
  - rewrite E. apply eq_sym in E. vm_compute in E. exact E.
Defined.

Lemma monthStart_succ_upper m leap :
  0 <= m <= 10 -> 0 <= leap <= 1 ->
  monthStart (m + 1) leap <= monthStart m leap + 31.
Proof.
  intros Hm Hl.
  assert (m = 0 \/ m = 1 \/ m = 2 \/ m = 3 \/ m = 4 \/ m = 5 \/ m = 6 \/
          m = 7 \/ m = 8 \/ m = 9 \/ m = 10) as Hc by lia.
  destruct Hc
    as [-> | [-> | [-> | [-> | [-> | [-> | [-> | [-> | [-> | [-> | ->]]]]]]]]]];
    match goal with
    | |- context [monthStart (?a + 1) _] =>
        let b := eval compute in (a + 1) in change (a + 1) with b
    end;
    unfold monthStart; lia.
Qed.

Lemma MakeDay_next_month_upper t :
  MakeDay (YearFromTime t) (MonthFromTime t + 1) (DateFromTime t)
  <= Day t + 31.
Proof.
  pose proof (MakeDay_fields t 0) as Hd. rewrite !Z.add_0_r in Hd.
  rewrite <- Hd.
  pose proof (MonthFromTime_range t) as Hm.
  set (y := YearFromTime t) in *. set (m := MonthFromTime t) in *.
  set (leap := if DaysInYear y =? 366 then 1 else 0).
  assert (Hl : 0 <= leap <= 1) by (unfold leap; destruct (_ =? _); lia).
  rewrite (MakeDay_in_year y m) by lia. fold leap.
  destruct (Z.eq_dec m 11) as [E|E].
  - rewrite E. unfold MakeDay.
    change ((11 + 1) / 12) with 1. change ((11 + 1) mod 12) with 0.
    rewrite DayFromYear_succ. simpl monthStart.
    destruct (DaysInYear_cases y) as [Hy|Hy]; unfold leap; rewrite Hy;
      simpl; lia.
  - rewrite (MakeDay_in_year y (m + 1)) by lia. fold leap.
    pose proof (monthStart_succ_upper m leap ltac:(lia) Hl). lia.
Qed.

Lemma setMonth_next_upper tza t :
  setMonth tza t (getMonth tza t + 1) <= t + 31 * msPerDay.
Proof.
  unfold setMonth, getMonth.
  set (lt := LocalTime tza t).
  pose proof (MakeDay_next_month_upper lt) as Hd.
  set (day := MakeDay _ _ _) in *.
  pose proof (MakeDate_Day lt (day - Day lt)) as Hm.
  replace (Day lt + (day - Day lt)) with day in Hm by lia.
  rewrite Hm. unfold UTC.
  assert ((day - Day lt) * msPerDay <= 31 * msPerDay).
  { apply Z.mul_le_mono_nonneg_r; [unfold msPerDay|]; lia. }
  unfold lt, LocalTime in *. lia.
Qed.

Lemma next_time_bounds tza t pattern days next :
  weekdays days ->
  calculateNextExecutionTime tza t pattern days = Some next ->
  t + msPerDay <= next <= t + 31 * msPerDay /\
  timeOfDay tza next = timeOfDay tza t.
Proof.
  intros Hw Hn. pose proof msPerDay_pos as Hms.
  destruct (String.eqb_spec pattern "daily") as [->|Hd].
  - destruct (daily_next tza t days) as [E Ht]. rewrite E in Hn.
    injection Hn as <-. split; [lia | exact Ht].
  - destruct (String.eqb_spec pattern "weekly") as [->|Hwk].
    + assert (Hseven : next = t + 7 * msPerDay ->
                       t + msPerDay <= next <= t + 31 * msPerDay /\
                       timeOfDay tza next = timeOfDay tza t).
      { intros ->. split; [lia | apply timeOfDay_plus_days]. }
      destruct days as [[|d ds]|].
      * rewrite weekly_no_days in Hn by now right.
        apply Hseven. congruence.
      * destruct (weekly_next tza t (d :: ds)) as (k & E & Hk);
          [discriminate|].
        rewrite E in Hn. injection Hn as <-.
        pose proof (getDay_range tza t) as Hr.
        simpl in Hw. rewrite Forall_forall in Hw.
        assert (1 <= k <= 7).
        { destruct Hk as [(x & Hx & Hlt & _ & ->) | (x & Hx & Hall & _ & ->)];
            pose proof (Hw x Hx); [lia|].
          pose proof (Hall x Hx). lia. }
        split; [nia | apply timeOfDay_plus_days].
      * rewrite weekly_no_days in Hn by now left.
        apply Hseven. congruence.
    + destruct (String.eqb_spec pattern "monthly") as [->|Hm].
      * unfold calculateNextExecutionTime in Hn. simpl in Hn.
        injection Hn as <-.
        destruct (setMonth_next tza t) as [H Ht].
        pose proof (setMonth_next_upper tza t). split; [lia | exact Ht].
      * rewrite other_pattern_none in Hn by assumption. discriminate.
Qed.

(** X16. Every recurrence moves the start time forward, by one day at least
    and 31 days at most, and keeps the time of day in the server's local
    time (weekly days being weekday indices 0..6). *)
Theorem next_time_within_a_month tza t pattern days next :
  weekdays days ->
  calculateNextExecutionTime tza t pattern days = Some next ->
  t + msPerDay <= next <= t + 31 * msPerDay /\
  timeOfDay tza next = timeOfDay tza t.
Proof. apply next_time_bounds. Qed.

Lemma next_time_within_a_month_witness :
  let t := utc 2024 1 31 9 0 in
  let next := utc 2024 3 2 9 0 in
  t + msPerDay <= next <= t + 31 * msPerDay /\
  timeOfDay 0 next = timeOfDay 0 t.
Proof.
  intros t next.
  apply (next_time_within_a_month 0 t "monthly" None next).
  - exact I.
  - reflexivity.
Defined.

(** ** A run after a run *)

Lemma fifteen_minutes_eq : fifteen_minutes = 15 * 60 * 1000.
Proof. reflexivity. Qed.

Lemma row_after_schedule_settles tza w now s row :
  id row = id s ->
  update_error w (id s) = None ->
  weekdays (recurrence_days s) ->
  now - fifteen_minutes < start_time s ->
  settled now (row_after_schedule tza w now s row).
Proof.
  intros Hid Hu Hw Hwin. unfold row_after_schedule. rewrite Hu.
  apply String.eqb_eq in Hid. rewrite Hid.
  destruct (updateData_of_cases tza now s)
    as [(p & n & _ & _ & _ & Hn & E) | [_ E]]; rewrite E.
  - right. simpl.
    destruct (next_time_bounds _ _ _ _ _ Hw Hn) as [[Hlo _] _]. lia.
  - left. reflexivity.
Qed.

Lemma row_after_schedule_stays_settled tza w now s row :
  (id s = id row ->
   weekdays (recurrence_days s) /\ now - fifteen_minutes < start_time s) ->
  settled now row ->
  settled now (row_after_schedule tza w now s row).
Proof.
  intros Hs Hrow.
  destruct (update_error w (id s)) as [e|] eqn:Hu.
  - unfold row_after_schedule. now rewrite Hu.
  - destruct (String.eqb_spec (id row) (id s)) as [E|E].
    + destruct (Hs (eq_sym E)) as [Hw Hwin].
      now apply row_after_schedule_settles.
    + rewrite row_after_schedule_other; [exact Hrow | now left].
Qed.

Lemma row_after_run_stays_settled tza w now schedules row :
  (forall s, In s schedules -> id s = id row ->
     weekdays (recurrence_days s) /\ now - fifteen_minutes < start_time s) ->
  settled now row ->
  settled now (row_after_run tza w now schedules row).
Proof.
  unfold row_after_run. revert row.
  induction schedules as [|s r IH]; intros row Hs Hrow; simpl.
  - exact Hrow.
  - pose proof (row_after_schedule_fixed tza w now s row) as (Hid & _).
    apply IH.
    + intros s' Hin E. apply Hs; [now right | congruence].
    + apply row_after_schedule_stays_settled; [|exact Hrow].
      apply Hs. now left.
Qed.

Lemma row_after_run_settles tza w now schedules s0 row :
  In s0 schedules ->
  id s0 = id row ->
  update_error w (id row) = None ->
  (forall s, In s schedules -> id s = id row ->
     weekdays (recurrence_days s) /\ now - fifteen_minutes < start_time s) ->
  settled now (row_after_run tza w now schedules row).
Proof.
  unfold row_after_run. revert row.
  induction schedules as [|s r IH]; intros row Hin Hid Hu Hs; simpl.
  - contradiction.
  - pose proof (row_after_schedule_fixed tza w now s row) as (Hfix & _).
    assert (Hs' : forall s', In s' r ->
              id s' = id (row_after_schedule tza w now s row) ->
              weekdays (recurrence_days s') /\
              now - fifteen_minutes < start_time s').
    { intros s' Hin' E. apply Hs; [now right | congruence]. }
    destruct Hin as [-> | Hin].
    + apply (row_after_run_stays_settled tza w now r); [exact Hs'|].
      destruct (Hs s0 (or_introl eq_refl) Hid) as [Hw Hwin].
      apply row_after_schedule_settles; auto. congruence.
    + apply IH; auto; congruence.
Qed.

Lemma settled_not_due now now' row :
  now' <= now + msPerDay - fifteen_minutes ->
  settled now row ->
  due now' row = false.
Proof.
  intros Hn [Hm | Hs]; unfold due.
  - rewrite Hm. simpl. now rewrite andb_false_r.
  - assert (E : (start_time row <=? now') = false) by (apply Z.leb_gt; lia).
    rewrite E. now rewrite andb_false_r.
Qed.

Lemma selected_window now table s :
  In s (select_due now table) -> now - fifteen_minutes < start_time s.
Proof.
  intros H. apply select_due_In in H. rewrite fifteen_minutes_eq. tauto.
Qed.

Lemma run_table tza w env key now req table :
  admitted env req ->
  configured env key ->
  select_error w = None ->
  table_after (handler tza w env now req table)
  = map (row_after_run tza w now (select_due now table)) table.
Proof.
  intros Ha Hc Hs. rewrite (handler_admitted _ _ _ _ _ _ Ha).
  destruct (select_due now table) as [|s0 rest] eqn:Hd.
  - rewrite (run_schedules_nothing _ _ _ _ _ _ Hc Hs Hd). simpl.
    unfold row_after_run. simpl. now rewrite map_id.
  - rewrite <- Hd.
    rewrite (run_schedules_report tza w env key now table Hc Hs)
      by (rewrite Hd; discriminate).
    pose proof (execute_all_table tza w now key (select_due now table) table)
      as Ht.
    destruct (execute_all tza w now key (select_due now table) table)
      as [[rs t'] lg]. exact Ht.
Qed.

(** X17. A schedule that a run has executed is not executed again by a run
    that follows within the day: once the update of a due schedule has
    succeeded, no query made up to 24 hours less 15 minutes after the run
    returns a row of its id, be the schedule one-time or recurring (weekly
    days being weekday indices 0..6). *)
Theorem rerun_safe tza w env key now req table schedule now' :
  admitted env req ->
  configured env key ->
  select_error w = None ->
  In schedule (select_due now table) ->
  update_error w (id schedule) = None ->
  (forall s, In s (select_due now table) -> id s = id schedule ->
             weekdays (recurrence_days s)) ->
  now' <= now + msPerDay - fifteen_minutes ->
  forall row,
    In row (select_due now' (table_after (handler tza w env now req table))) ->
    id row <> id schedule.
Proof.
  intros Ha Hc Hs Hin Hu Hw Hn row' Hsel Hid.
  rewrite (run_table _ _ _ _ _ _ _ Ha Hc Hs) in Hsel.
  unfold select_due in Hsel at 1.
  apply sort_by_In, filter_In in Hsel. destruct Hsel as [Hrow Hdue].
  apply in_map_iff in Hrow. destruct Hrow as (row & <- & Hrow).
  pose proof (row_after_run_fixed tza w now (select_due now table) row)
    as (Hfix & _).
  assert (Hset : settled now
                   (row_after_run tza w now (select_due now table) row)).
  { apply (row_after_run_settles tza w now _ schedule); auto.
    - congruence.
    - congruence.
    - intros s Hs' E. split; [apply Hw; [exact Hs' | congruence]|].
      eapply selected_window; eauto. }
  rewrite (settled_not_due _ _ _ Hn Hset) in Hdue. discriminate.
Qed.

Lemma rerun_safe_witness :
  let s := Sample.recurring "d" "daily" None Sample.noon in
  let r1 := handler 0 Sample.calm Sample.env Sample.noon Sample.cron [s] in
  select_due (Sample.noon + 300000) (table_after r1) = [].
Proof.
  intros s r1.
  pose proof (rerun_safe 0 Sample.calm Sample.env "mdm-key" Sample.noon
                Sample.cron [s] s (Sample.noon + 300000)) as H.
  destruct (select_due (Sample.noon + 300000) (table_after r1))
    as [|row rest] eqn:E; [reflexivity|].
  exfalso.
  assert (Hsel : In row (select_due (Sample.noon + 300000) (table_after r1)))
    by (rewrite E; now left).
  apply (H ltac:(split; [right; reflexivity | right; right; reflexivity])
           ltac:(repeat split; discriminate)
           eq_refl
           ltac:(vm_compute; left; reflexivity)
           eq_refl
           ltac:(intros s0 Hs0 _; vm_compute in Hs0;
                 destruct Hs0 as [<- | []]; exact I)
           ltac:(vm_compute; discriminate)
           row Hsel).
  apply select_due_In in Hsel. destruct Hsel as [Hrow _].
  vm_compute in Hrow. destruct Hrow as [<- | []]. reflexivity.
Defined.

Lemma filter_none {A : Type} (p : A -> bool) l :
  (forall x, In x l -> p x = false) -> filter p l = [].
Proof.
  induction l as [|x r IH]; intros H; simpl; [reflexivity|].
  rewrite (H x (or_introl eq_refl)). apply IH.
  intros y Hy. apply H. now right.
Qed.

(** X18. A retry right after a run does nothing.  When the updates of all
    the due schedules have succeeded, no row is due any more at the time of
    the run: the handler called again at that time over the table that the
    run left answers "No schedules to execute", makes no push and leaves the
    table as it is. *)
Theorem immediate_retry tza w env key now req table :
  admitted env req ->
  configured env key ->
  select_error w = None ->
  (forall s, In s (select_due now table) ->
             update_error w (id s) = None /\ weekdays (recurrence_days s)) ->
  let table' := table_after (handler tza w env now req table) in
  select_due now table' = [] /\
  handler tza w env now req table' =
    {| response := {| status := 200;
                      body := MessageBody "No schedules to execute" |};
       table_after := table';
       pushes := [] |}.
Proof.
  intros Ha Hc Hs Hall table'.
  assert (Hnone : select_due now table' = []).
  { subst table'. rewrite (run_table _ _ _ _ _ _ _ Ha Hc Hs).
    unfold select_due at 1.
    rewrite filter_none; [reflexivity|].
    intros row' Hrow.
    apply in_map_iff in Hrow. destruct Hrow as (row & <- & Hrow).
    destruct (in_dec string_dec (id row) (map id (select_due now table)))
      as [Hid | Hid].
    - apply in_map_iff in Hid. destruct Hid as (s0 & Hs0 & Hin0).
      apply (settled_not_due now);
        [pose proof msPerDay_pos; rewrite fifteen_minutes_eq;
         unfold msPerDay; lia|].
      apply (row_after_run_settles tza w now _ s0); auto.
      + rewrite <- Hs0. now apply Hall.
      + intros s Hin E. split; [now apply Hall|].
        eapply selected_window; eauto.
    - rewrite row_after_run_other by now left.
      destruct (due now row) eqn:Hdue; [|reflexivity].
      exfalso. apply Hid. apply in_map.
      unfold select_due. apply sort_by_In, filter_In. auto. }
  split; [exact Hnone|].
  rewrite (handler_admitted _ _ _ _ _ _ Ha).
  now rewrite (run_schedules_nothing _ _ _ _ _ _ Hc Hs Hnone).
Qed.

Lemma immediate_retry_witness :
  let table := [Sample.one_shot "a" Sample.noon;
                Sample.recurring "m" "monthly" None (Sample.noon - 60000)] in
  let table' := table_after (handler 0 Sample.calm Sample.env Sample.noon
                               Sample.cron table) in
  select_due Sample.noon table' = [].
Proof.
  intros table table'.
  destruct (immediate_retry 0 Sample.calm Sample.env "mdm-key" Sample.noon
              Sample.cron table) as [H _].
  - split; [right; reflexivity | right; right; reflexivity].
  - repeat split; discriminate.
  - reflexivity.
  - intros s Hs. split; [reflexivity|].
    vm_compute in Hs. destruct Hs as [<- | [<- | []]]; exact I.
  - exact H.
Defined.

(** ** The SimpleMDM key *)

Lemma run_schedules_key tza w env env' now table :
  SUPABASE_URL env' = SUPABASE_URL env ->
  SUPABASE_SERVICE_ROLE_KEY env' = SUPABASE_SERVICE_ROLE_KEY env ->
  (if truthy_str (SIMPLEMDM_API_KEY env') then SIMPLEMDM_API_KEY env'
   else VITE_SIMPLEMDM_API_KEY env') =
  (if truthy_str (SIMPLEMDM_API_KEY env) then SIMPLEMDM_API_KEY env
   else VITE_SIMPLEMDM_API_KEY env) ->
  run_schedules tza w env' now table = run_schedules tza w env now table.
Proof.
  intros Hu Hs Hk. unfold run_schedules. now rewrite Hu, Hs, Hk.
Qed.

(** X19. Which SimpleMDM key a run uses.  When [SIMPLEMDM_API_KEY] is set
    and not empty the handler does not look at [VITE_SIMPLEMDM_API_KEY]:
    its answer, table and pushes are the same whatever that variable holds.
    When [SIMPLEMDM_API_KEY] is unset or empty the handler behaves as if it
    held the value of [VITE_SIMPLEMDM_API_KEY]. *)
Theorem simplemdm_key_choice tza w env now req table :
  (truthy_str (SIMPLEMDM_API_KEY env) = true ->
   forall v,
     handler tza w (with_vite_key env v) now req table
     = handler tza w env now req table) /\
  (truthy_str (SIMPLEMDM_API_KEY env) = false ->
   handler tza w (with_simplemdm_key env (VITE_SIMPLEMDM_API_KEY env))
           now req table
   = handler tza w env now req table).
Proof.
  split.
  - intros Ht v. unfold handler.
    rewrite (run_schedules_key tza w env (with_vite_key env v));
      try reflexivity.
    simpl. now rewrite Ht.
  - intros Hf. unfold handler.
    rewrite (run_schedules_key tza w env
               (with_simplemdm_key env (VITE_SIMPLEMDM_API_KEY env)));
      try reflexivity.
    simpl. rewrite Hf.
    now destruct (truthy_str (VITE_SIMPLEMDM_API_KEY env)).
Qed.

(** The main key empty: the run uses the other one. *)
Lemma simplemdm_key_choice_witness :
  let env := with_vite_key (with_simplemdm_key Sample.env (Some EmptyString))
                           (Some "mdm-key") in
  handler 0 Sample.calm env Sample.noon Sample.cron
    [Sample.one_shot "a" Sample.noon]
  = handler 0 Sample.calm Sample.env Sample.noon Sample.cron
      [Sample.one_shot "a" Sample.noon].
Proof.
  intros env.
  destruct (simplemdm_key_choice 0 Sample.calm env Sample.noon Sample.cron
              [Sample.one_shot "a" Sample.noon]) as [_ H].
  rewrite <- H by reflexivity. reflexivity.
Defined.

(** ** What fails a schedule *)

Lemma outcome_of_success tza w now key schedule :
  success (outcome_of tza w now key schedule)
  = is_null (update_error w (id schedule)).
Proof.
  unfold outcome_of, execute_schedule.
  destruct (update_error w (id schedule)); reflexivity.
Qed.

Lemma count_if_map {A B : Type} (f : A -> B) (p : B -> bool) l :
  count_if p (map f l) = count_if (fun x => p (f x)) l.
Proof.
  unfold count_if. induction l as [|x r IH]; simpl; [reflexivity|].
  destruct (p (f x)); simpl; now rewrite IH.
Qed.

Lemma count_if_ext {A : Type} (p q : A -> bool) l :
  (forall x, p x = q x) -> count_if p l = count_if q l.
Proof.
  intros H. unfold count_if. now rewrite (filter_ext _ _ H).
Qed.

(** X7. A schedule is reported executed only if its update was accepted.
    In the report of a run every element with [success: true] belongs to a
    schedule whose update the table accepted; so [executed] is at most the
    number of due schedules whose update is accepted, and [failed] at least
    the number of those whose update is refused. *)
Theorem executed_only_with_accepted_update tza w env key now req table :
  admitted env req ->
  configured env key ->
  select_error w = None ->
  select_due now table <> [] ->
  exists executed failed results,
    response (handler tza w env now req table) =
      {| status := 200; body := ReportBody executed failed results |} /\
    (forall o, In o results -> success o = true ->
               update_error w (scheduleId o) = None) /\
    (executed <= count_if (fun s => is_null (update_error w (id s)))
                          (select_due now table))%nat /\
    (count_if (fun s => negb (is_null (update_error w (id s))))
              (select_due now table) <= failed)%nat.
Proof.
  intros Ha Hc Hs Hd.
  rewrite (handler_admitted _ _ _ _ _ _ Ha).
  rewrite (run_schedules_report _ _ _ _ _ _ Hc Hs Hd).
  pose proof (execute_all_results tza w now key (select_due now table) table)
    as Hr.
  destruct (execute_all tza w now key (select_due now table) table)
    as [[results table'] lg].
  simpl in Hr. subst results. do 3 eexists. split; [reflexivity|].
  split; [|split].
  - intros o Ho Hsucc. apply in_map_iff in Ho. destruct Ho as (s & <- & _).
    rewrite outcome_of_success in Hsucc. rewrite outcome_of_id.
    now destruct (update_error w (id s)).
  - rewrite count_if_map.
    rewrite (count_if_ext _ (fun s => is_null (update_error w (id s))))
      by (intros s; apply outcome_of_success).
    apply Nat.le_refl.
  - rewrite count_if_map.
    rewrite (count_if_ext
               (fun x => negb (success (outcome_of tza w now key x)))
               (fun s => negb (is_null (update_error w (id s)))))
      by (intros s; now rewrite outcome_of_success).
    apply Nat.le_refl.
Qed.

Lemma executed_only_with_accepted_update_witness :
  exists executed failed results,
    response (handler 0 Sample.readonly Sample.env Sample.noon Sample.cron
                [Sample.one_shot "a" Sample.noon]) =
      {| status := 200; body := ReportBody executed failed results |} /\
    (executed <= 0)%nat.
Proof.
  destruct (executed_only_with_accepted_update 0 Sample.readonly Sample.env
              "mdm-key" Sample.noon Sample.cron
              [Sample.one_shot "a" Sample.noon])
    as (e & f & results & H & _ & He & _).
  - split; [right; reflexivity | right; right; reflexivity].
  - repeat split; discriminate.
  - reflexivity.
  - vm_compute. discriminate.
  - exists e, f, results. split; [exact H | exact He].
Defined.

Lemma targetDevices_of_directory w w' key schedule :
  directory w key (id schedule) = directory w' key (id schedule) ->
  targetDevices_of w key schedule = targetDevices_of w' key schedule.
Proof.
  intros H. unfold targetDevices_of, fetchFilteredDevices, fetchAllDevices.
  now rewrite H.
Qed.

(** X8. The element reported for a schedule depends on nothing but the
    schedule, the time of the run and the answers of the directory and of
    the table for that schedule: it is the same over any table and in any
    world that gives these two answers, whatever happens to the other
    schedules and to the pushes. *)
Theorem outcome_isolated tza w w' now key schedule table table' :
  update_error w (id schedule) = update_error w' (id schedule) ->
  directory w key (id schedule) = directory w' key (id schedule) ->
  fst (fst (execute_schedule tza w now key schedule table))
  = fst (fst (execute_schedule tza w' now key schedule table')).
Proof.
  intros Hu Hd. unfold execute_schedule.
  rewrite (targetDevices_of_directory w w' key schedule Hd), Hu.
  destruct (update_error w' (id schedule)); reflexivity.
Qed.

Lemma outcome_isolated_witness :
  let s := Sample.one_shot "a" Sample.noon in
  fst (fst (execute_schedule 0 Sample.calm Sample.noon "mdm-key" s [s]))
  = fst (fst (execute_schedule 0 Sample.rejecting Sample.noon "mdm-key" s [])).
Proof.
  intros s.
  apply (outcome_isolated 0 Sample.calm Sample.rejecting Sample.noon
           "mdm-key" s [s] []); reflexivity.
Defined.

(** ** Instances *)

(** A request with another method: refused, the table as it was. *)
Lemma effects_only_with_report_witness :
  let req := {| method := "DELETE"; x_api_key := Some "executor-secret";
                x_vercel_cron := Some "true" |} in
  let table := [Sample.one_shot "a" Sample.noon] in
  let r := handler 0 Sample.calm Sample.env Sample.noon req table in
  table_after r = table /\ pushes r = [].
Proof.
  intros req table r.
  destruct (effects_only_with_report 0 Sample.calm Sample.env Sample.noon
              req table) as [_ H].
  apply H. reflexivity.
Defined.

Lemma status_conditions_witness :
  status (response (handler 0 Sample.calm Sample.env Sample.noon
                      {| method := "DELETE"; x_api_key := None;
                         x_vercel_cron := Some "true" |}
                      [Sample.one_shot "a" Sample.noon])) = 405.
Proof.
  apply (status_conditions 0 Sample.calm Sample.env Sample.noon
           {| method := "DELETE"; x_api_key := None;
              x_vercel_cron := Some "true" |}
           [Sample.one_shot "a" Sample.noon]).
  intros [H | H]; discriminate.
Defined.

(** A daily schedule: the report gives the next day, and so does the row. *)
Lemma report_agrees_with_table_witness :
  let s := Sample.recurring "d" "daily" None Sample.noon in
  let '(o, table', _) :=
    execute_schedule 0 Sample.calm Sample.noon "mdm-key" s [s] in
  nextExecution o = Some (Sample.noon + msPerDay) /\
  map start_time table' = [Sample.noon + msPerDay] /\
  map last_executed_at table' = [None].
Proof.
  intros s.
  pose proof (report_agrees_with_table 0 Sample.calm Sample.noon "mdm-key"
                s [s]) as H.
  destruct (execute_schedule 0 Sample.calm Sample.noon "mdm-key" s [s])
    as [[o table'] lg] eqn:E.
  destruct H as [_ H].
  vm_compute in E. injection E as <- <- <-.
  specialize (H eq_refl _ (or_introl eq_refl) eq_refl).
  cbn [nextExecution] in H. destruct H as [H1 H2].
  split; [reflexivity|].
  split; [exact (f_equal (fun x => [x]) H1)
         | exact (f_equal (fun x => [x]) H2)].
Defined.
